(** * DWARF dump interpretation and disassembly annotation of
    [disassemble-function.py], shallowly embedded.

    Lines of the [objdump --dwarf=info] and [objdump --dwarf=Ranges] dumps
    are represented by what the regular expressions of the script capture
    from them ([dline], [rline]); disassembly lines are kept as strings and
    matched by a transcription of the regular expression [asmre]. Python
    exceptions are the [Raise] case of a small error monad. *)

From Stdlib Require Import String Ascii ZArith List Bool Lia.
Import ListNotations.
Open Scope Z_scope.

(* ------------------------------------------------------------------ *)
(** ** Python primitives *)

(** Exceptions that the modelled code can raise; [SystemExit] is what
    [script_utils.error] ends in ([exit(1)]). *)
Inductive exn := ValueError | IndexError | TypeError | SystemExit.

Inductive result (A : Type) : Type :=
| Ok (a : A)
| Raise (e : exn).
Arguments Ok {A} a.
Arguments Raise {A} e.

Definition bind {A B : Type} (m : result A) (k : A -> result B) : result B :=
  match m with
  | Ok a => k a
  | Raise e => Raise e
  end.

Notation "x <- m ;; k" := (bind m (fun x => k))
  (at level 61, m at next level, right associativity).

(** Python's [\s] and [str.isspace] on code points 0..255:
    [\t \n \v \f \r], [\x1c]..[\x1f], space, [\x85] and [\xa0]. *)
Definition is_space (c : ascii) : bool :=
  let n := nat_of_ascii c in
  (Nat.leb 9 n && Nat.leb n 13) || (Nat.leb 28 n && Nat.leb n 32)
  || Nat.eqb n 133 || Nat.eqb n 160.

Fixpoint lstrip (s : string) : string :=
  match s with
  | EmptyString => EmptyString
  | String c t => if is_space c then lstrip t else s
  end.

Fixpoint rstrip (s : string) : string :=
  match s with
  | EmptyString => EmptyString
  | String c t =>
      let t' := rstrip t in
      if String.eqb t' EmptyString && is_space c then EmptyString
      else String c t'
  end.

(** [str.strip()] *)
Definition strip (s : string) : string := rstrip (lstrip s).

(** value of a base-16 digit *)
Definition hex_val (c : ascii) : option Z :=
  let n := Z.of_nat (nat_of_ascii c) in
  if (48 <=? n) && (n <=? 57) then Some (n - 48)
  else if (97 <=? n) && (n <=? 102) then Some (n - 87)
  else if (65 <=? n) && (n <=? 70) then Some (n - 55)
  else None.

(** digits after the first one; a single [_] may separate two digits *)
Fixpoint digits16 (acc : Z) (s : string) : option Z :=
  match s with
  | EmptyString => Some acc
  | String "_"%char (String d t) =>
      match hex_val d with
      | Some v => digits16 (acc * 16 + v) t
      | None => None
      end
  | String d t =>
      match hex_val d with
      | Some v => digits16 (acc * 16 + v) t
      | None => None
      end
  end.

Definition int_body16 (s : string) : option Z :=
  match s with
  | String d t =>
      match hex_val d with
      | Some v => digits16 v t
      | None => None
      end
  | EmptyString => None
  end.

(** [int(s, 16)]: surrounding whitespace, an optional sign, an optional
    [0x]/[0X] prefix (which may be followed by one [_]), then at least one
    digit with single underscores between digits. [None] is the
    [ValueError] case. *)
Definition py_int16 (s0 : string) : option Z :=
  let s := strip s0 in
  let '(neg, s) :=
    match s with
    | String "+"%char t => (false, t)
    | String "-"%char t => (true, t)
    | _ => (false, s)
    end in
  let s :=
    match s with
    | String "0"%char (String x t) =>
        if Ascii.eqb x "x"%char || Ascii.eqb x "X"%char then
          match t with
          | String "_"%char t' => t'
          | _ => t
          end
        else s
    | _ => s
    end in
  match int_body16 s with
  | Some v => Some (if neg then - v else v)
  | None => None
  end.

Definition hex_char (d : Z) : ascii :=
  ascii_of_nat (Z.to_nat (if d <? 10 then 48 + d else 87 + d)).

Fixpoint hex_digits (fuel : nat) (n : Z) (acc : string) : string :=
  match fuel with
  | O => acc
  | S f =>
      let acc' := String (hex_char (n mod 16)) acc in
      if n <? 16 then acc' else hex_digits f (n / 16) acc'
  end.

(** ["%x" % n] *)
Definition py_hex (n : Z) : string :=
  let m := Z.abs n in
  let ds := hex_digits (S (Z.to_nat (Z.log2 m))) m EmptyString in
  if n <? 0 then String "-"%char ds else ds.

(** ["%x" % k] for a DIE-store key, which is an int or [None]. *)
Definition fmt_x (k : option Z) : result string :=
  match k with
  | Some n => Ok (py_hex n)
  | None => Raise TypeError
  end.

(** *** Dictionaries: insertion-ordered association lists *)
Section Dict.
Context {K V : Type} (keq : K -> K -> bool).

Fixpoint dget (d : list (K * V)) (k : K) : option V :=
  match d with
  | [] => None
  | (k', v) :: t => if keq k' k then Some v else dget t k
  end.

(** [d[k] = v]: an existing key keeps its position *)
Fixpoint dset (d : list (K * V)) (k : K) (v : V) : list (K * V) :=
  match d with
  | [] => [(k, v)]
  | (k', v') :: t => if keq k' k then (k', v) :: t else (k', v') :: dset t k v
  end.

Definition dmem (d : list (K * V)) (k : K) : bool :=
  match dget d k with Some _ => true | None => false end.
End Dict.

(** [d[k].append(x)] on a [defaultdict(list)] *)
Definition dd_append {K X : Type} (keq : K -> K -> bool)
  (d : list (K * list X)) (k : K) (x : X) : list (K * list X) :=
  match dget keq d k with
  | Some l => dset keq d k (l ++ [x])
  | None => dset keq d k [x]
  end.

Definition okey_eqb (a b : option Z) : bool :=
  match a, b with
  | Some x, Some y => Z.eqb x y
  | None, None => true
  | _, _ => false
  end.

(* ------------------------------------------------------------------ *)
(** ** DIE dump: [read_die_chain], [expand_die] *)

(** A line of [objdump --dwarf=info] as classified by the script:
    [DStart off abbrev tag] is a match of [bdiere] (its groups 1, 2, 3),
    [DAttr attr val] a match of [indiere] (its groups 4 and 6), [DOther]
    any other line. No line matches both expressions: the first blank
    delimited word of a [bdiere] match ends in [:] or [v], that of an
    [indiere] match ends in [>]. *)
Inductive dline :=
| DStart (off abbrev tag : string)
| DAttr (attr val : string)
| DOther (text : string).

(** DIE store: [defaultdict(list)] from the decoded offset (or [None]
    for attribute lines before any DIE start) to the DIE's lines. *)
Definition store := list (option Z * list dline).

Fixpoint read_die_chain_loop (dies : store) (curdieoff : option Z)
  (lines : list dline) : result store :=
  match lines with
  | [] => Ok dies
  | line :: rest =>
      match line with
      | DStart absoff _ _ =>
          match py_int16 absoff with
          | Some odec =>
              read_die_chain_loop (dd_append okey_eqb dies (Some odec) line)
                (Some odec) rest
          | None => Raise ValueError
          end
      | DAttr _ _ =>
          read_die_chain_loop (dd_append okey_eqb dies curdieoff line)
            curdieoff rest
      | DOther _ => read_die_chain_loop dies curdieoff rest
      end
  end.

Definition read_die_chain (lines : list dline) : result store :=
  read_die_chain_loop [] None lines.

Definition attrs := list (string * string).

Fixpoint expand_attrs (acc : attrs) (lines : list dline) : result attrs :=
  match lines with
  | [] => Ok acc
  | DAttr attr v :: rest => expand_attrs (dset String.eqb acc attr (strip v)) rest
  | _ :: _ => Raise SystemExit  (* u.error("can't apply indiere match ...") *)
  end.

(** returns [(abbrev, tag, attrs)] *)
Definition expand_die (lines : list dline) : result (string * string * attrs) :=
  match lines with
  | [] => Raise IndexError
  | DStart _ abbrev tag :: rest =>
      a <- expand_attrs [] rest ;; Ok (abbrev, tag, a)
  | _ :: _ => Raise SystemExit  (* u.error("can'r apply bdiere match ...") *)
  end.

(* ------------------------------------------------------------------ *)
(** ** [grab_hex_attr] *)

(** maximal prefix of non-whitespace characters, and the rest *)
Fixpoint span_nonspace (s : string) : string * string :=
  match s with
  | EmptyString => (EmptyString, EmptyString)
  | String c t =>
      if is_space c then (EmptyString, s)
      else let '(r, rest) := span_nonspace t in (String c r, rest)
  end.

Fixpoint all_space (s : string) : bool :=
  match s with
  | EmptyString => true
  | String c t => is_space c && all_space t
  end.

(** [hexvalre = ^\s*0x(\S+)\s*$]: group 1 *)
Definition hexvalre_match (s : string) : option string :=
  match lstrip s with
  | String "0"%char (String "x"%char t) =>
      let '(run, rest) := span_nonspace t in
      if negb (String.eqb run EmptyString) && all_space rest then Some run
      else None
  | _ => None
  end.

(** [hexval2re = ^\s*\<0x(\S+)\>\s*$]: group 1; the [>] closes the
    non-blank word, which is longer than one character. *)
Definition hexval2re_match (s : string) : option string :=
  match lstrip s with
  | String "<"%char (String "0"%char (String "x"%char t)) =>
      let '(run, rest) := span_nonspace t in
      let n := String.length run in
      if Nat.leb 2 n && String.eqb (substring (n - 1) 1 run) ">"%string
         && all_space rest
      then Some (substring 0 (n - 1) run)
      else None
  | _ => None
  end.

(** "Grab an attribute by value, convert from hex, return dec or -1." *)
Definition grab_hex_attr (a : attrs) (attrname : string) : result Z :=
  match dget String.eqb a attrname with
  | Some hexval =>
      match hexvalre_match hexval with
      | Some g =>
          match py_int16 g with Some v => Ok v | None => Raise ValueError end
      | None =>
          match hexval2re_match hexval with
          | Some g =>
              match py_int16 g with Some v => Ok v | None => Raise ValueError end
          | None => Ok (-1)
          end
      end
  | None => Ok (-1)
  end.

(* ------------------------------------------------------------------ *)
(** ** [collect_die_nametag] *)

Definition placeholder (tag : string) (off : Z) : string :=
  ("unknown@" ++ tag ++ "@" ++ py_hex off)%string.

Definition collect_die_nametag (a : attrs) (off : option Z) (tag : string)
  (dies : store) : result string :=
  match dget String.eqb a "DW_AT_name"%string with
  | Some n => Ok n
  | None =>
      absoff <- grab_hex_attr a "DW_AT_abstract_origin"%string ;;
      (* u.verbose(1, "absoff for %x/%s is %x" % (off, tag, absoff)) *)
      offx <- fmt_x off ;;
      match dget okey_eqb dies (Some absoff) with
      | Some lines =>
          r <- expand_die lines ;;
          let '(_, _, aattrs) := r in
          match dget String.eqb aattrs "DW_AT_name"%string with
          | Some n => Ok n
          | None => Ok ("unknown@" ++ tag ++ "@" ++ offx)%string
          end
      | None => Ok ("unknown@" ++ tag ++ "@" ++ offx)%string
      end
  end.

(* ------------------------------------------------------------------ *)
(** ** [postprocess_rangerefs] *)

(** A line of [objdump --dwarf=Ranges] as classified by the script:
    [RBase] matches [basere], [REnd] matches [endre], [RSingle] matches
    [singre], [ROther] none of them. The three expressions are mutually
    exclusive, and their groups are [[0-9a-f]+], so [int(..., 16)] always
    succeeds on them: the fields are carried as their values. *)
Inductive rline :=
| RBase (off a b : Z)
| REnd (off : Z)
| RSingle (off st en : Z)
| ROther (text : string).

(** a DIE queued for a range list: [(attrs, off, tag)] *)
Definition rlref_entry := (attrs * option Z * string)%type.
Definition rlrefs_t := list (Z * list rlref_entry).

(** the locals of the parsing loop *)
Record rstate := mkR {
  inrange : bool;
  crange : list (Z * Z);
  refranges : list (Z * list (Z * Z));
  unmatched : list rline
}.

Definition rstate0 : rstate := mkR false [] [] [].

(** one iteration of [for line in lines] *)
Definition range_step (rlrefs : rlrefs_t) (s : rstate) (line : rline) : rstate :=
  let singleton :=
    match line with
    | RSingle off st en =>
        mkR true
          (if dmem Z.eqb rlrefs off then crange s ++ [(st, en)] else crange s)
          (refranges s) (unmatched s)
    | _ => mkR (inrange s) (crange s) (refranges s) (unmatched s ++ [line])
    end in
  if negb (inrange s) then
    match line with
    | RBase _ _ _ => mkR true (crange s) (refranges s) (unmatched s)
    | _ => singleton
    end
  else
    match line with
    | REnd off => mkR false [] (dset Z.eqb (refranges s) off (crange s)) (unmatched s)
    | _ => singleton
    end.

Definition parse_ranges (rlrefs : rlrefs_t) (lines : list rline) : rstate :=
  fold_left (range_step rlrefs) lines rstate0.

(** a named interval [(name, lo, hi)] *)
Definition item := (string * Z * Z)%type.

Fixpoint pp_tlist (dies : store) (rngs : list (Z * Z)) (tlist : list rlref_entry)
  (results : list item) : result (list item) :=
  match tlist with
  | [] => Ok results
  | (a, dieoff, tag) :: rest =>
      name <- collect_die_nametag a dieoff tag dies ;;
      pp_tlist dies rngs rest
        (results ++ map (fun rng => let '(st, en) := rng in (name, st, en)) rngs)
  end.

Fixpoint pp_items (dies : store) (refr : list (Z * list (Z * Z)))
  (rl : rlrefs_t) (results : list item) : result (list item) :=
  match rl with
  | [] => Ok results
  | (roff, tlist) :: rest =>
      match dget Z.eqb refr roff with
      | None => pp_items dies refr rest results
      | Some rngs =>
          results' <- pp_tlist dies rngs tlist results ;;
          pp_items dies refr rest results'
      end
  end.

(** [postprocess_rangerefs]; [lines] is the output of
    [objdump --dwarf=Ranges lm]. *)
Definition postprocess_rangerefs (lines : list rline) (rlrefs : rlrefs_t)
  (dies : store) (results : list item) : result (list item) :=
  pp_items dies (refranges (parse_ranges rlrefs lines)) rlrefs results.

(* ------------------------------------------------------------------ *)
(** ** [collect_ranged_items] *)

Fixpoint cri_loop (dies : store) (entries : store) (results : list item)
  (rlrefs : rlrefs_t) : result (list item * rlrefs_t) :=
  match entries with
  | [] => Ok (results, rlrefs)
  | (off, lines) :: rest =>
      r <- expand_die lines ;;
      let '(_, tag, a) := r in
      lodec <- grab_hex_attr a "DW_AT_low_pc"%string ;;
      hidec <- grab_hex_attr a "DW_AT_high_pc"%string ;;
      if negb (lodec =? -1) && negb (hidec =? -1) then
        name <- collect_die_nametag a off tag dies ;;
        cri_loop dies rest (results ++ [(name, lodec, hidec)]) rlrefs
      else
        rlref <- grab_hex_attr a "DW_AT_ranges"%string ;;
        if negb (rlref =? -1) then
          (* u.verbose(1, "queued rref=%x tag=%s off=%x in rlrefs" % ...) *)
          _ <- fmt_x off ;;
          cri_loop dies rest results (dd_append Z.eqb rlrefs rlref (a, off, tag))
        else cri_loop dies rest results rlrefs
  end.

(** [collect_ranged_items(lm, dies)]; [rlines] is what
    [postprocess_rangerefs] reads from [objdump --dwarf=Ranges lm]. *)
Definition collect_ranged_items (rlines : list rline) (dies : store)
  : result (list item) :=
  p <- cri_loop dies dies [] [] ;;
  let '(results, rlrefs) := p in
  match rlrefs with
  | [] => Ok results
  | _ :: _ => postprocess_rangerefs rlines rlrefs dies results
  end.

(* ------------------------------------------------------------------ *)
(** ** The annotation loop of [dodwarf] *)

(** maximal prefix of whitespace characters, and the rest *)
Fixpoint span_space (s : string) : string * string :=
  match s with
  | EmptyString => (EmptyString, EmptyString)
  | String c t =>
      if is_space c then let '(w, rest) := span_space t in (String c w, rest)
      else (EmptyString, s)
  end.

Fixpoint has_newline (s : string) : bool :=
  match s with
  | EmptyString => false
  | String c t => Ascii.eqb c "010"%char || has_newline t
  end.

(** [.*$]: the part matched by [.*]; [$] matches at the end of the string
    or just before a final newline. *)
Definition dot_star_end (s : string) : option string :=
  if negb (has_newline s) then Some s
  else
    let n := String.length s in
    if Nat.leb 1 n && String.eqb (substring (n - 1) 1 s) (String "010"%char EmptyString)
       && negb (has_newline (substring 0 (n - 1) s))
    then Some (substring 0 (n - 1) s)
    else None.

(** [\s*\S.*$] after the colon: what it matches. [\s*] can only take
    all the leading whitespace, since [\S] must follow it. *)
Definition colon_tail (t : string) : option string :=
  let '(w, u) := span_space t in
  match u with
  | EmptyString => None
  | String c u' =>
      match dot_star_end u' with
      | Some v => Some (w ++ String c v)%string
      | None => None
      end
  end.

(** groups 2 and 3 of [asmre] once [\S+] has consumed [c] and [r] is left:
    greedy, so a longer [\S+] is tried before stopping at [c]. Returns
    groups 2 and 3. *)
Fixpoint addr_run (c : ascii) (r : string) : option (string * string) :=
  let longer :=
    match r with
    | String c2 r2 =>
        if is_space c2 then None
        else match addr_run c2 r2 with
             | Some (a, g) => Some (String c a, g)
             | None => None
             end
    | EmptyString => None
    end in
  match longer with
  | Some res => Some res
  | None =>
      match r with
      | String ":"%char t =>
          match colon_tail t with
          | Some g => Some (String c EmptyString, String ":"%char g)
          | None => None
          end
      | _ => None
      end
  end.

(** [asmre] with [re.match]: group 1 is [^\s*], group 2 is [\S+],
    group 3 is [\:\s*\S.*] followed by [$]; returns the three groups.
    [\s*] takes all the leading whitespace, since [\S+] must follow. *)
Definition asm_match (line : string) : option (string * string * string) :=
  let '(sp, r) := span_space line in
  match r with
  | String c r' =>
      match addr_run c r' with
      | Some (a, g) => Some (sp, a, g)
      | None => None
      end
  | EmptyString => None
  end.

Fixpoint suffixes (items : list item) (decaddr : Z) : list string :=
  match items with
  | [] => []
  | (name, lo, hi) :: rest =>
      (if lo =? decaddr then [(" begin " ++ name)%string] else [])
      ++ (if hi =? decaddr then [(" end " ++ name)%string] else [])
      ++ suffixes rest decaddr
  end.

Definition nl : string := String "010"%char EmptyString.

(** what one iteration of [for line in asmlines] writes to stdout *)
Definition annotate_line (items : list item) (line : string) : string :=
  match asm_match line with
  | None => (line ++ nl)%string
  | Some (sp, addr, rem) =>
      match py_int16 addr with
      | None => (line ++ nl)%string
      | Some decaddr =>
          let sfx := suffixes items decaddr in
          (sp ++ addr ++ rem
           ++ (match sfx with
               | [] => EmptyString
               | _ :: _ => " // " ++ String.concat "," sfx
               end) ++ nl)%string
      end
  end.

(** the output loop of [dodwarf] *)
Definition annotate (items : list item) (asmlines : list string) : string :=
  String.concat EmptyString (map (annotate_line items) asmlines).

(* ------------------------------------------------------------------ *)
(** ** Well-formed DIE dumps *)

(** One DIE of a dump: its start line and the lines after it. *)
Record die_group := mkG {
  g_off : string;
  g_abbrev : string;
  g_tag : string;
  g_body : list dline
}.

Definition render_group (g : die_group) : list dline :=
  DStart (g_off g) (g_abbrev g) (g_tag g) :: g_body g.

(** the offset declared on the start line, decoded *)
Definition g_key (g : die_group) : option Z := py_int16 (g_off g).

Definition is_start (l : dline) : bool :=
  match l with DStart _ _ _ => true | _ => false end.

Definition is_other (l : dline) : bool :=
  match l with DOther _ => true | _ => false end.

Definition is_attr (l : dline) : bool :=
  match l with DAttr _ _ => true | _ => false end.

(** the lines of a DIE that the store keeps *)
Definition attr_lines (body : list dline) : list dline := filter is_attr body.

(** Reading the attribute lines of a DIE in order, the value last seen
    for [k] (decoded with [strip]): "last occurrence wins". *)
Fixpoint last_attr_acc (seen : option string) (body : list dline) (k : string)
  : option string :=
  match body with
  | [] => seen
  | DAttr a v :: rest =>
      last_attr_acc (if String.eqb a k then Some (strip v) else seen) rest k
  | _ :: rest => last_attr_acc seen rest k
  end.

Definition last_attr (body : list dline) (k : string) : option string :=
  last_attr_acc None body k.

(* ------------------------------------------------------------------ *)
(** ** Concrete inputs *)

(** The [--dwarf=info] dump of a compile unit with one subprogram [main]
    at offset [0x10] covering [[0x1000, 0x1020]]. *)
Definition main_dump : list dline :=
  [DOther "Contents of the .debug_info section:";
   DStart "b" "1" "DW_TAG_compile_unit";
   DAttr "DW_AT_name" " t.c";
   DStart "10" "2" "DW_TAG_subprogram";
   DAttr "DW_AT_name" " main";
   DAttr "DW_AT_low_pc" " 0x1000";
   DAttr "DW_AT_high_pc" " 0x1020"]%string.

(** [main_dump] as its header line and its two DIEs *)
Definition main_groups : list die_group :=
  [mkG "b" "1" "DW_TAG_compile_unit" [DAttr "DW_AT_name" " t.c"];
   mkG "10" "2" "DW_TAG_subprogram"
     [DAttr "DW_AT_name" " main"; DAttr "DW_AT_low_pc" " 0x1000";
      DAttr "DW_AT_high_pc" " 0x1020"]]%string.

(** an abstract-origin chain [0x30 -> 0x20 -> 0x10]; only [0x10] is
    named *)
Definition chain_dump : list dline :=
  [DStart "10" "2" "DW_TAG_subprogram";
   DAttr "DW_AT_name" " main";
   DStart "20" "3" "DW_TAG_subprogram";
   DAttr "DW_AT_abstract_origin" " <0x10>";
   DStart "30" "4" "DW_TAG_inlined_subroutine";
   DAttr "DW_AT_abstract_origin" " <0x20>";
   DAttr "DW_AT_low_pc" " 0x1000";
   DAttr "DW_AT_high_pc" " 0x1010"]%string.

(** an inlined subroutine whose abstract origin is not valid hex *)
Definition bad_origin_dump : list dline :=
  [DStart "10" "2" "DW_TAG_subprogram";
   DAttr "DW_AT_name" " main";
   DStart "30" "4" "DW_TAG_inlined_subroutine";
   DAttr "DW_AT_abstract_origin" " <0xzz>";
   DAttr "DW_AT_low_pc" " 0x1000";
   DAttr "DW_AT_high_pc" " 0x1010"]%string.

(** two subprograms, the second with a low pc that is not valid hex *)
Definition bad_low_dump : list dline :=
  [DStart "10" "2" "DW_TAG_subprogram";
   DAttr "DW_AT_name" " main";
   DAttr "DW_AT_low_pc" " 0x1000";
   DAttr "DW_AT_high_pc" " 0x1020";
   DStart "40" "2" "DW_TAG_subprogram";
   DAttr "DW_AT_name" " helper";
   DAttr "DW_AT_low_pc" " 0x1g00";
   DAttr "DW_AT_high_pc" " 0x1100"]%string.

(** a subprogram whose high pc is below its low pc *)
Definition reversed_dump : list dline :=
  [DStart "10" "2" "DW_TAG_subprogram";
   DAttr "DW_AT_name" " f";
   DAttr "DW_AT_low_pc" " 0x20";
   DAttr "DW_AT_high_pc" " 0x10"]%string.

(** the store of a subprogram covered by the range list at [0x40] *)
Definition ranges_store : store :=
  [(Some 16, [DStart "10" "2" "DW_TAG_subprogram"; DAttr "DW_AT_name" " main";
              DAttr "DW_AT_ranges" " 0x40"])]%string.

(** the DIE lines [lines], if it has both pcs, has them in order *)
Definition die_pc_ordered (lines : list dline) : Prop :=
  forall abbrev tag a lo hi,
    expand_die lines = Ok (abbrev, tag, a) ->
    grab_hex_attr a "DW_AT_low_pc"%string = Ok lo ->
    grab_hex_attr a "DW_AT_high_pc"%string = Ok hi ->
    lo <> -1 -> hi <> -1 -> lo <= hi.

(** [read_die_chain] followed by [collect_ranged_items] (no range list is
    referenced, so the range dump is not read). *)
Definition items_of (dump : list dline) (rlines : list rline) : result (list item) :=
  dies <- read_die_chain dump ;; collect_ranged_items rlines dies.

(** singleton lines [off start end] of the ranges dump *)
Definition singles (ss : list (Z * Z * Z)) : list rline :=
  map (fun t => let '(o, st, en) := t in RSingle o st en) ss.

(** the pairs of those singletons whose offset field is a queued range
    reference *)
Definition kept (rlrefs : rlrefs_t) (ss : list (Z * Z * Z)) : list (Z * Z) :=
  map (fun t => let '(_, st, en) := t in (st, en))
    (filter (fun t => let '(o, _, _) := t in dmem Z.eqb rlrefs o) ss).

(** a DIE with [DW_AT_ranges] queued under range offset [0x40] *)
Definition rlrefs_40 : rlrefs_t :=
  [(64, [([("DW_AT_ranges", "0x40")]%string, Some 32, "DW_TAG_lexical_block"%string)])].

(** base address, two singletons under [0x40], end of list printed
    with [e] *)
Definition block_40 (e : Z) : list rline :=
  [RBase 64 (2 ^ 64 - 1) 4194304; RSingle 64 4096 4112; RSingle 64 4128 4144;
   REnd e].

(** base address, a singleton, a second base address, a singleton, end *)
Definition block_40_rebased : list rline :=
  [RBase 64 (2 ^ 64 - 1) 4194304; RSingle 64 4096 4112;
   RBase 64 (2 ^ 64 - 1) 5242880; RSingle 64 8192 8208; REnd 64].

(* ------------------------------------------------------------------ *)
(** ** Auxiliary predicates *)

Definition die_entry (g : die_group) : option Z * list dline :=
  (g_key g, DStart (g_off g) (g_abbrev g) (g_tag g) :: attr_lines (g_body g)).

Definition item_ordered (it : item) : Prop := let '(_, lo, hi) := it in lo <= hi.

Definition pair_ordered (p : Z * Z) : Prop := fst p <= snd p.

Definition rstate_ordered (s : rstate) : Prop :=
  Forall pair_ordered (crange s) /\
  forall k v, In (k, v) (refranges s) -> Forall pair_ordered v.

(* ------------------------------------------------------------------ *)
(** ** Symbol lookup: [inhexrange], [grabaddrsize], [has_dynamic_section],
    [what], [grab_addrs_from_symtab], [disas] *)

(** [int(s, 16)] in the monad *)
Definition int16 (s : string) : result Z :=
  match py_int16 s with Some v => Ok v | None => Raise ValueError end.

(** truth value of a Python value that is a string or [None] *)
Definition truthy (s : option string) : bool :=
  match s with Some (String _ _) => true | _ => false end.

(** [addr] is an int, or [None] when a function name is looked up;
    comparing [None] with an int raises [TypeError]. *)
Definition inhexrange (hsa hsz : string) (addr : option Z) : result bool :=
  staddr <- int16 hsa ;;
  sa <- int16 hsa ;;
  sz <- int16 hsz ;;
  let enaddr := sa + sz in
  match addr with
  | Some a => Ok ((staddr <=? a) && (a <=? enaddr))
  | None => Raise TypeError
  end.

Fixpoint strip_prefix (p s : string) : option string :=
  match p, s with
  | EmptyString, _ => Some s
  | String a p', String b s' => if Ascii.eqb a b then strip_prefix p' s' else None
  | String _ _, EmptyString => None
  end.

Definition is_nl (c : ascii) : bool := Ascii.eqb c "010"%char.

(** [.*\.text] followed by what [k] matches, [.*] being greedy: a longer
    [.*] is tried before [\.text] is looked for at the current position. *)
Fixpoint dotstar_text {X : Type} (k : string -> option X) (t : string) : option X :=
  match (match t with
         | String c t' => if is_nl c then None else dotstar_text k t'
         | EmptyString => None
         end) with
  | Some x => Some x
  | None =>
      match strip_prefix ".text"%string t with
      | Some u => k u
      | None => None
      end
  end.

(** [\s+(\S+)]: the word and the rest. Both runs are maximal, since a
    [\S] must follow the blanks and a [\s] or the end the word. *)
Definition space_word (u : string) : option (string * string) :=
  let '(w, u1) := span_space u in
  if String.eqb w EmptyString then None
  else
    let '(g, u2) := span_nonspace u1 in
    if String.eqb g EmptyString then None else Some (g, u2).

(** [$]: the end of the string, or just before a final newline *)
Definition at_end (u : string) : bool := String.eqb u EmptyString || String.eqb u nl.

(** [\s+(\S+)\s+(\S+)$], groups 2 and 3 of the first expression *)
Definition sym_tail1 (u : string) : option (string * string) :=
  match space_word u with
  | Some (g2, u2) =>
      match space_word u2 with
      | Some (g3, u3) => if at_end u3 then Some (g2, g3) else None
      | None => None
      end
  | None => None
  end.

(** [\s+(\S+)\s+\S+\s+(\S+)$], groups 2 and 3 of the second expression *)
Definition sym_tail2 (u : string) : option (string * string) :=
  match space_word u with
  | Some (g2, u2) =>
      match space_word u2 with
      | Some (_, u3) =>
          match space_word u3 with
          | Some (g3, u4) => if at_end u4 then Some (g2, g3) else None
          | None => None
          end
      | None => None
      end
  | None => None
  end.

(** [re.match] of [^(\S+)\s.+\.text] followed by [tail]: groups 1, 2, 3.
    [(\S+)] is maximal (a [\s] follows); the [\s] takes the next
    character, [.+] at least one more that is not a newline. *)
Definition sym_match (tail : string -> option (string * string)) (line : string)
  : option (string * string * string) :=
  let '(g1, r) := span_nonspace line in
  if String.eqb g1 EmptyString then None
  else
    match r with
    | String _ (String c t) =>
        if is_nl c then None
        else
          match dotstar_text tail t with
          | Some (g2, g3) => Some (g1, g2, g3)
          | None => None
          end
    | _ => None
    end.

(** the two expressions of [grabaddrsize], in order *)
Definition symtab_regexes : list (string -> option (string * string * string)) :=
  [sym_match sym_tail1; sym_match sym_tail2].

(** the [for r in regexes] loop, up to its [break] *)
Fixpoint grab_loop (rs : list (string -> option (string * string * string)))
  (line : string) (func : option string) (addr : option Z)
  : result (option string * option string) :=
  match rs with
  | [] => Ok (None, None)
  | r :: rest =>
      match r line with
      | Some (g1, g2, name) =>
          (* u.verbose(2, "=-= name is %s" % name) *)
          if truthy func then
            if match func with Some f => String.eqb name f | None => false end
            then Ok (Some g1, Some g2)
            else grab_loop rest line func addr
          else
            b <- inhexrange g1 g2 addr ;;
            if b then Ok (Some g1, Some g2) else grab_loop rest line func addr
      | None => grab_loop rest line func addr
      end
  end.

Definition grabaddrsize (line : string) (func : option string) (addr : option Z)
  : result (option string * option string) :=
  p <- grab_loop symtab_regexes line func addr ;;
  let '(hexstaddr, hexsize) := p in
  if truthy hexstaddr
     && match hexsize with Some s => String.eqb s "00000000"%string | None => false end
  then Ok (hexstaddr, Some "4"%string)
  else Ok (hexstaddr, hexsize).














(* ------------------------------------------------------------------ *)
(** ** [dodwarf] *)

Fixpoint dec_digits (fuel : nat) (n : Z) (acc : string) : string :=
  match fuel with
  | O => acc
  | S f =>
      let acc' := String (ascii_of_nat (Z.to_nat (48 + n mod 10))) acc in
      if n <? 10 then acc' else dec_digits f (n / 10) acc'
  end.

(** ["%d" % n] *)
Definition py_dec (n : Z) : string :=
  let m := Z.abs n in
  let ds := dec_digits (S (Z.to_nat (Z.log2 m))) m EmptyString in
  if n <? 0 then String "-"%char ds else ds.

Definition fmt_d (k : option Z) : result string :=
  match k with
  | Some n => Ok (py_dec n)
  | None => Raise TypeError
  end.

(** the search for the compile unit named [flag] over [dies.items()];
    the last match wins *)
Fixpoint cu_scan (flag : string) (entries : store) (cu : option string)
  : result (option string) :=
  match entries with
  | [] => Ok cu
  | (off, lines) :: rest =>
      r <- expand_die lines ;;
      let '(_, tag, a) := r in
      if negb (String.eqb tag "DW_TAG_compile_unit"%string) then cu_scan flag rest cu
      else
        match dget String.eqb a "DW_AT_name"%string with
        | None => cu_scan flag rest cu
        | Some cuname =>
            if String.eqb cuname flag then
              d <- fmt_d off ;;
              cu_scan flag rest (Some ("--dwarf-start=" ++ d)%string)
            else cu_scan flag rest cu
        end
  end.

Definition is_none {A : Type} (o : option A) : bool :=
  match o with None => true | Some _ => false end.

Fixpoint insert_key (x : Z) (l : list Z) : list Z :=
  match l with
  | [] => [x]
  | y :: t => if x <=? y then x :: l else y :: insert_key x t
  end.

Fixpoint some_keys (ks : list (option Z)) : list Z :=
  match ks with
  | [] => []
  | Some k :: t => k :: some_keys t
  | None :: t => some_keys t
  end.

(** [sorted(dies)]: keys are ints, and at most one is [None]; with two
    keys or more, [None] is compared with an int, which raises. *)
Definition py_sorted_keys (ks : list (option Z)) : result (list (option Z)) :=
  if existsb is_none ks then
    if Nat.leb 2 (length ks) then Raise TypeError else Ok ks
  else Ok (map Some (fold_right insert_key [] (some_keys ks))).

(** the [flag_dumpdwarf] loop; [dies[off]] of a missing key is the empty
    list of the [defaultdict] *)
Fixpoint dump_pass (dies : store) (keys : list (option Z)) : result unit :=
  match keys with
  | [] => Ok tt
  | k :: rest =>
      r <- expand_die (match dget okey_eqb dies k with Some l => l | None => [] end) ;;
      dump_pass dies rest
  end.

(** [dodwarf(asmlines, lm)]: [lines1] is the output of
    [objdump --dwarf=info --dwarf-depth=1 lm], [dump_cu cu_offset] that of
    [objdump <cu_offset> --dwarf=info lm], [rlines] that of
    [objdump --dwarf=Ranges lm]; the result is what is written to stdout. *)
Definition dodwarf (flag_dwarf_cu : string) (flag_dumpdwarf : bool)
  (lines1 : list dline) (dump_cu : string -> list dline) (rlines : list rline)
  (asmlines : list string) : result string :=
  dies <- read_die_chain lines1 ;;
  cu_offset <-
    (if String.eqb flag_dwarf_cu "."%string then Ok None
     else cu_scan flag_dwarf_cu dies None) ;;
  ranged_items <-
    match cu_offset with
    | None => Ok []  (* u.warning("could not locate DWARF compilation unit ...") *)
    | Some cu =>
        dies2 <- read_die_chain (dump_cu cu) ;;
        _ <- (if flag_dumpdwarf then
                ks <- py_sorted_keys (map fst dies2) ;; dump_pass dies2 ks
              else Ok tt) ;;
        collect_ranged_items rlines dies2
    end ;;
  Ok (annotate ranged_items asmlines).

(* ------------------------------------------------------------------ *)
(** ** Symbol-table lines *)

Fixpoint no_space (s : string) : bool :=
  match s with
  | EmptyString => true
  | String c t => negb (is_space c) && no_space t
  end.

Fixpoint has_dot (s : string) : bool :=
  match s with
  | EmptyString => false
  | String c t => Ascii.eqb c "."%char || has_dot t
  end.

Definition nonempty (s : string) : bool := negb (String.eqb s EmptyString).

(** blanks between two fields of a line *)
Definition blanks (s : string) : bool :=
  nonempty s && all_space s && negb (has_newline s).

(** A [.text] symbol line of [objdump -t] ([s_ver = None]) or of
    [objdump -T] (a version word and the blanks after it): address, one
    blank, the flag columns up to the section name, [.text], blanks,
    size, blanks, [version blanks], name. *)
Record symrec := mkS {
  s_addr : string;
  s_flags : string;
  s_sep0 : string;
  s_size : string;
  s_sep1 : string;
  s_ver : option (string * string);
  s_name : string
}.

Definition render_sym (r : symrec) : string :=
  (s_addr r ++ " " ++ s_flags r ++ ".text" ++ s_sep0 r ++ s_size r ++ s_sep1 r
   ++ match s_ver r with Some (v, sep2) => v ++ sep2 | None => EmptyString end
   ++ s_name r)%string.

(** address, size, version and name are non-blank words; the flag
    columns are not empty and hold neither a newline nor a [.]; in a
    [-T] line the size holds no [.] either *)
Definition sym_wf (r : symrec) : bool :=
  nonempty (s_addr r) && no_space (s_addr r)
  && nonempty (s_flags r) && negb (has_newline (s_flags r)) && negb (has_dot (s_flags r))
  && blanks (s_sep0 r) && nonempty (s_size r) && no_space (s_size r)
  && blanks (s_sep1 r) && nonempty (s_name r) && no_space (s_name r)
  && match s_ver r with
     | Some (v, sep2) =>
         nonempty v && no_space v && blanks sep2 && negb (has_dot (s_size r))
     | None => true
     end.

(** the size as [grabaddrsize] reports it *)
Definition reported_size (r : symrec) : string :=
  if String.eqb (s_size r) "00000000"%string then "4"%string else s_size r.


(** the same symbol in [objdump -T] *)
Definition dline_sym (a sz name : string) : symrec :=
  mkS a "g    DF " " " sz "  " (Some ("Base"%string, "    "%string)) name.


(** a range-list block: base address line, singletons, end of list *)
Record rblock := mkB {
  b_base : Z * Z * Z;
  b_singles : list (Z * Z * Z);
  b_end : Z
}.

Definition render_block (b : rblock) : list rline :=
  let '(o, x, y) := b_base b in
  RBase o x y :: singles (b_singles b) ++ [REnd (b_end b)].

(** what a sequence of blocks read from the start commits *)
Definition blocks_committed (rlrefs : rlrefs_t) (bs : list rblock)
  : list (Z * list (Z * Z)) :=
  fold_left (fun rr b => dset Z.eqb rr (b_end b) (kept rlrefs (b_singles b))) bs [].

(** the [refranges] view of the parser state *)
Definition rview (s : rstate) : bool * list (Z * Z) * list (Z * list (Z * Z)) :=
  (inrange s, crange s, refranges s).

Definition is_rother (l : rline) : bool :=
  match l with ROther _ => true | _ => false end.

Definition is_rend (l : rline) : bool :=
  match l with REnd _ => true | _ => false end.

(** every DIE with a [DW_AT_ranges] reference also has both pcs, so
    none is queued for a range list *)
Definition none_queued (dies : store) : Prop :=
  forall off lines ab tag a,
    In (off, lines) dies ->
    expand_die lines = Ok (ab, tag, a) ->
    (exists lo hi, grab_hex_attr a "DW_AT_low_pc"%string = Ok lo /\
       grab_hex_attr a "DW_AT_high_pc"%string = Ok hi /\ lo <> -1 /\ hi <> -1)
    \/ grab_hex_attr a "DW_AT_ranges"%string = Ok (-1).

(** The bounds [(lo, hi)] are a DIE's decoded pcs. *)
Definition pcs_of_die (dies : store) (lo hi : Z) : Prop :=
  exists off lines ab tag a,
    In (off, lines) dies /\ expand_die lines = Ok (ab, tag, a) /\
    grab_hex_attr a "DW_AT_low_pc"%string = Ok lo /\
    grab_hex_attr a "DW_AT_high_pc"%string = Ok hi /\ lo <> -1 /\ hi <> -1.

Definition rstate_all (P : Z -> Z -> Prop) (s : rstate) : Prop :=
  Forall (fun p => P (fst p) (snd p)) (crange s) /\
  forall k v, In (k, v) (refranges s) -> Forall (fun p => P (fst p) (snd p)) v.

(** the first dump of [dodwarf] for a load module with two compile
    units named [t.c], at [0xb] and [0x2a], and one named [u.c] *)
Definition cu_dump : list dline :=
  [DOther "Contents of the .debug_info section:";
   DStart "b" "1" "DW_TAG_compile_unit";
   DAttr "DW_AT_name" " t.c";
   DStart "2a" "1" "DW_TAG_compile_unit";
   DAttr "DW_AT_name" " t.c";
   DStart "50" "1" "DW_TAG_compile_unit";
   DAttr "DW_AT_name" " u.c"]%string.

(** the dump of one unit for each [--dwarf-start=] option *)
Definition cu_dumps (cu : string) : list dline :=
  if String.eqb cu "--dwarf-start=42"%string then main_dump else [].

Definition asm_sample : list string :=
  ["  1000: push rbp"; "  1001: mov rbp,rsp"; "  1020: ret"]%string.

(* ================================================================== *)
(** * Properties *)

(** ** The disassembly line matcher gives back the line *)

Lemma has_newline_app (x y : string) :
  has_newline (x ++ y)%string = has_newline x || has_newline y.
Proof.
  induction x as [|c x IH]; simpl; [reflexivity|].
  rewrite IH, orb_assoc; reflexivity.
Qed.

Lemma sapp_assoc (x y z : string) : (x ++ (y ++ z))%string = ((x ++ y) ++ z)%string.
Proof. induction x as [|c x IH]; simpl; [reflexivity|rewrite IH; reflexivity]. Qed.

Lemma sapp_empty_l (x : string) : (EmptyString ++ x)%string = x.
Proof. reflexivity. Qed.

Lemma span_space_app (s w r : string) :
  span_space s = (w, r) -> (w ++ r)%string = s.
Proof.
  revert w r; induction s as [|c s IH]; intros w r H; simpl in H.
  - inversion H; reflexivity.
  - destruct (is_space c).
    + destruct (span_space s) as [w' r'] eqn:E; inversion H; subst.
      simpl; f_equal; apply IH; reflexivity.
    + inversion H; reflexivity.
Qed.

Lemma dot_star_end_no_newline (s v : string) :
  has_newline s = false -> dot_star_end s = Some v -> v = s.
Proof.
  unfold dot_star_end; intros Hn H; rewrite Hn in H; simpl in H.
  inversion H; reflexivity.
Qed.

Lemma colon_tail_no_newline (t g : string) :
  has_newline t = false -> colon_tail t = Some g -> g = t.
Proof.
  unfold colon_tail; intros Hn H.
  destruct (span_space t) as [w u] eqn:E.
  apply span_space_app in E; subst t.
  rewrite has_newline_app in Hn; apply orb_false_iff in Hn as [_ Hu].
  destruct u as [|c u']; [discriminate|].
  simpl in Hu; apply orb_false_iff in Hu as [_ Hu'].
  destruct (dot_star_end u') as [v|] eqn:Ev; [|discriminate].
  inversion H; subst.
  rewrite (dot_star_end_no_newline u' v Hu' Ev); reflexivity.
Qed.

Lemma addr_run_no_newline (r : string) :
  forall c a g, has_newline r = false -> addr_run c r = Some (a, g) ->
  (a ++ g)%string = String c r.
Proof.
  induction r as [|c2 r2 IH]; intros c a g Hn H; simpl in H.
  - discriminate.
  - simpl in Hn; apply orb_false_iff in Hn as [Hc Hr].
    destruct (is_space c2) eqn:Es.
    + destruct (Ascii.eqb c2 ":"%char) eqn:Ec.
      * apply Ascii.eqb_eq in Ec; subst c2; discriminate.
      * destruct c2 as [[] [] [] [] [] [] [] []]; try discriminate; try (inversion Ec; fail);
          try discriminate H.
    + destruct (addr_run c2 r2) as [[a' g']|] eqn:E.
      * inversion H; subst; simpl; f_equal; apply IH; assumption.
      * destruct (Ascii.eqb c2 ":"%char) eqn:Ec.
        -- apply Ascii.eqb_eq in Ec; subst c2.
           destruct (colon_tail r2) as [g'|] eqn:Et; [|discriminate].
           inversion H; subst; simpl.
           rewrite (colon_tail_no_newline r2 g' Hr Et); reflexivity.
        -- destruct c2 as [[] [] [] [] [] [] [] []]; try discriminate; try (inversion Ec; fail).
Qed.

Lemma asm_match_no_newline (line sp a g : string) :
  has_newline line = false -> asm_match line = Some (sp, a, g) ->
  (sp ++ a ++ g)%string = line.
Proof.
  unfold asm_match; intros Hn H.
  destruct (span_space line) as [w r] eqn:E.
  apply span_space_app in E; subst line.
  rewrite has_newline_app in Hn; apply orb_false_iff in Hn as [_ Hr].
  destruct r as [|c r']; [discriminate|].
  destruct (addr_run c r') as [[a' g']|] eqn:Ea; [|discriminate].
  inversion H; subst.
  simpl in Hr; apply orb_false_iff in Hr as [_ Hr'].
  rewrite (addr_run_no_newline r' c a g Hr' Ea); reflexivity.
Qed.

Lemma suffixes_nil (items : list item) (d : Z) :
  Forall (fun it => let '(_, lo, hi) := it in lo <> d /\ hi <> d) items ->
  suffixes items d = [].
Proof.
  induction 1 as [|[[name lo] hi] rest [Hlo Hhi] _ IH]; simpl; [reflexivity|].
  rewrite IH.
  destruct (Z.eqb_spec lo d); [contradiction|].
  destruct (Z.eqb_spec hi d); [contradiction|reflexivity].
Qed.

(** C9: a disassembly line without an address prefix, or whose decoded
    address is neither the low nor the high boundary of any interval, is
    written out unchanged (followed by the line terminator). The lines
    come from [split("\n")], so they contain no newline. *)
Theorem annotate_line_unmatched_unchanged (items : list item) (line : string) :
  has_newline line = false ->
  (asm_match line = None \/
   exists sp addr rem, asm_match line = Some (sp, addr, rem) /\
     forall d, py_int16 addr = Some d ->
       Forall (fun it => let '(_, lo, hi) := it in lo <> d /\ hi <> d) items) ->
  annotate_line items line = (line ++ nl)%string.
Proof.
  intros Hn [Hm | (sp & addr & rem & Hm & Hd)]; unfold annotate_line; rewrite Hm;
    [reflexivity|].
  destruct (py_int16 addr) as [d|] eqn:Ed; [|reflexivity].
  rewrite (suffixes_nil items d (Hd d eq_refl)).
  rewrite <- (asm_match_no_newline line sp addr rem Hn Hm).
  rewrite sapp_empty_l, !sapp_assoc; reflexivity.
Qed.

(** C10: a line that matches [asmre] but whose address token is not
    valid base 16 is written out unchanged; no exception escapes. *)
Theorem annotate_line_bad_hex_unchanged (items : list item) (line sp addr rem : string) :
  asm_match line = Some (sp, addr, rem) ->
  py_int16 addr = None ->
  annotate_line items line = (line ++ nl)%string.
Proof.
  intros Hm Hd; unfold annotate_line; rewrite Hm, Hd; reflexivity.
Qed.

Lemma annotate_line_unmatched_unchanged_witness :
  annotate_line [("main"%string, 4096, 4128)] "  1010: nop"%string
  = ("  1010: nop" ++ nl)%string.
Proof.
  apply annotate_line_unmatched_unchanged; [reflexivity|].
  right; exists "  "%string, "1010"%string, ": nop"%string; split; [reflexivity|].
  intros d Hd; vm_compute in Hd; inversion Hd; subst.
  repeat constructor; discriminate.
Defined.

Lemma annotate_line_bad_hex_unchanged_witness :
  annotate_line [("main"%string, 4096, 4128)] "  zz: nop"%string
  = ("  zz: nop" ++ nl)%string.
Proof.
  apply (annotate_line_bad_hex_unchanged _ _ "  "%string "zz"%string ": nop"%string);
    reflexivity.
Defined.

(** ** The annotation suffix *)

Lemma suffixes_in (items : list item) (d : Z) (s : string) :
  In s (suffixes items d) ->
  exists name lo hi, In (name, lo, hi) items /\
    ((lo = d /\ s = (" begin " ++ name)%string) \/
     (hi = d /\ s = (" end " ++ name)%string)).
Proof.
  induction items as [|[[name lo] hi] rest IH]; simpl; [contradiction|].
  intro H; apply in_app_or in H as [H|H].
  - destruct (Z.eqb_spec lo d); [|contradiction].
    destruct H as [H|[]]; exists name, lo, hi; auto.
  - apply in_app_or in H as [H|H].
    + destruct (Z.eqb_spec hi d); [|contradiction].
      destruct H as [H|[]]; exists name, lo, hi; auto.
    + destruct (IH H) as (n & l & h & Hin & Hs); exists n, l, h; auto.
Qed.

(** C3 (as the code has it): for the dump [main_dump], the collector
    yields the interval [("main", 0x1000, 0x1020)]; the line
    ["  1000: push rbp"] becomes ["  1000: push rbp //  begin main"] and
    ["  1020: ret"] becomes ["  1020: ret //  end main"]: the separator
    [" // "] is followed by the suffixes joined with [","], each suffix
    being [" begin <name>"] or [" end <name>"] with its own leading blank. *)
Theorem dodwarf_begin_end_suffix :
  items_of main_dump [] = Ok [("main"%string, 4096, 4128)] /\
  annotate_line [("main"%string, 4096, 4128)] "  1000: push rbp"%string
    = ("  1000: push rbp //  begin main" ++ nl)%string /\
  annotate_line [("main"%string, 4096, 4128)] "  1020: ret"%string
    = ("  1020: ret //  end main" ++ nl)%string /\
  (forall items line sp addr rem d,
     has_newline line = false ->
     asm_match line = Some (sp, addr, rem) ->
     py_int16 addr = Some d ->
     suffixes items d <> [] ->
     annotate_line items line
     = (line ++ " // " ++ String.concat "," (suffixes items d) ++ nl)%string /\
     forall s, In s (suffixes items d) ->
       exists name lo hi, In (name, lo, hi) items /\
         ((lo = d /\ s = (" begin " ++ name)%string) \/
          (hi = d /\ s = (" end " ++ name)%string))).
Proof.
  split; [vm_compute; reflexivity|].
  split; [vm_compute; reflexivity|].
  split; [vm_compute; reflexivity|].
  intros items line sp addr rem d Hn Hm Hd Hs; split; [|apply suffixes_in].
  unfold annotate_line; rewrite Hm, Hd.
  destruct (suffixes items d) as [|s0 ss]; [contradiction|].
  rewrite <- (asm_match_no_newline line sp addr rem Hn Hm), !sapp_assoc.
  reflexivity.
Qed.

Lemma dodwarf_begin_end_suffix_witness :
  annotate_line [("main"%string, 4096, 4128); ("main"%string, 4128, 4160)]
    "  1020: ret"%string
  = ("  1020: ret //  end main, begin main" ++ nl)%string.
Proof.
  destruct dodwarf_begin_end_suffix as (_ & _ & _ & Hgen).
  destruct (Hgen [("main"%string, 4096, 4128); ("main"%string, 4128, 4160)]
              "  1020: ret"%string "  "%string "1020"%string ": ret"%string 4128)
    as [-> _]; try reflexivity; try discriminate.
Defined.

(** C3 as stated fails: the line does not come out as
    ["  1000: push rbp // begin main"]. *)
Lemma dodwarf_single_blank_suffix_fails :
  match items_of main_dump [] with
  | Ok its => annotate_line its "  1000: push rbp"%string
              <> ("  1000: push rbp // begin main" ++ nl)%string
  | Raise _ => False
  end.
Proof. vm_compute; discriminate. Qed.

(** ** The range-list parser *)

Lemma singles_in_open_block (rlrefs : rlrefs_t) (ss : list (Z * Z * Z)) :
  forall s, inrange s = true ->
  fold_left (range_step rlrefs) (singles ss) s
  = mkR true (crange s ++ kept rlrefs ss) (refranges s) (unmatched s).
Proof.
  induction ss as [|[[o st] en] ss IH]; intros [ir cr rr um] Hin; simpl in *.
  - subst ir; rewrite app_nil_r; reflexivity.
  - subst ir; rewrite IH by reflexivity; simpl.
    unfold kept; simpl.
    destruct (dmem Z.eqb rlrefs o); simpl; rewrite <- ?app_assoc; reflexivity.
Qed.

(** C1 (as the code has it): a block read while no block is open
    (base address, singletons, end of list) is committed under the offset
    printed on its end-of-list line; the pairs kept are those of the
    singletons whose own offset is a queued range reference, in order. *)
Theorem range_block_committed_at_end_marker (rlrefs : rlrefs_t) (s : rstate)
  (b a c e : Z) (ss : list (Z * Z * Z)) :
  inrange s = false ->
  fold_left (range_step rlrefs) (RBase b a c :: singles ss ++ [REnd e]) s
  = mkR false [] (dset Z.eqb (refranges s) e (crange s ++ kept rlrefs ss))
      (unmatched s).
Proof.
  destruct s as [ir cr rr um]; simpl; intros ->; simpl.
  rewrite fold_left_app, singles_in_open_block by reflexivity; reflexivity.
Qed.

Lemma range_block_committed_at_end_marker_witness :
  inrange rstate0 = false /\
  refranges (parse_ranges rlrefs_40 (block_40 64))
  = [(64, [(4096, 4112); (4128, 4144)])].
Proof.
  split; [reflexivity|].
  unfold parse_ranges, block_40.
  change [RBase 64 (2 ^ 64 - 1) 4194304; RSingle 64 4096 4112;
          RSingle 64 4128 4144; REnd 64]
    with (RBase 64 (2 ^ 64 - 1) 4194304
          :: singles [(64, 4096, 4112); (64, 4128, 4144)] ++ [REnd 64]).
  rewrite (range_block_committed_at_end_marker rlrefs_40 rstate0 64 (2 ^ 64 - 1)
             4194304 64 [(64, 4096, 4112); (64, 4128, 4144)] eq_refl).
  reflexivity.
Defined.

(** C1 as stated fails: with the end-of-list line printed as [60], the
    two pairs are not stored under the anchor [0x40] but under [0x60]. *)
Lemma range_block_not_keyed_by_anchor :
  dget Z.eqb (refranges (parse_ranges rlrefs_40 (block_40 96))) 64 = None /\
  dget Z.eqb (refranges (parse_ranges rlrefs_40 (block_40 96))) 96
  = Some [(4096, 4112); (4128, 4144)].
Proof. split; vm_compute; reflexivity. Qed.

(** C8 (as the code has it): only an end-of-list line closes an open
    block. A base-address line read while a block is open is recorded as
    unmatched and changes nothing else, so the singletons after it keep
    accumulating into the same block. *)
Theorem range_base_inside_block_ignored (rlrefs : rlrefs_t) (s : rstate)
  (b a c : Z) (ss : list (Z * Z * Z)) :
  inrange s = true ->
  fold_left (range_step rlrefs) (RBase b a c :: singles ss) s
  = mkR true (crange s ++ kept rlrefs ss) (refranges s)
      (unmatched s ++ [RBase b a c]) /\
  (forall l, (forall o, l <> REnd o) -> inrange (range_step rlrefs s l) = true).
Proof.
  destruct s as [ir cr rr um]; simpl; intros ->; split.
  - simpl; rewrite singles_in_open_block by reflexivity; reflexivity.
  - intros l Hl; unfold range_step; simpl.
    destruct l as [o x y|o|o x y|t]; simpl; try assumption; try reflexivity.
    exfalso; apply (Hl o); reflexivity.
Qed.

Lemma range_base_inside_block_ignored_witness :
  refranges (parse_ranges rlrefs_40 block_40_rebased)
  = [(64, [(4096, 4112); (8192, 8208)])].
Proof.
  unfold parse_ranges.
  change block_40_rebased
    with ([RBase 64 (2 ^ 64 - 1) 4194304; RSingle 64 4096 4112]
          ++ (RBase 64 (2 ^ 64 - 1) 5242880 :: singles [(64, 8192, 8208)])
          ++ [REnd 64]).
  rewrite !fold_left_app.
  destruct (range_base_inside_block_ignored rlrefs_40
              (fold_left (range_step rlrefs_40)
                 [RBase 64 (2 ^ 64 - 1) 4194304; RSingle 64 4096 4112] rstate0)
              64 (2 ^ 64 - 1) 5242880 [(64, 8192, 8208)] eq_refl) as [-> _].
  vm_compute; reflexivity.
Defined.

(** C8 as stated fails: after a second base-address line, the next pair
    is appended to the list of the block that was already open. *)
Lemma range_base_does_not_close_block :
  dget Z.eqb (refranges (parse_ranges rlrefs_40 block_40_rebased)) 64
  = Some [(4096, 4112); (8192, 8208)].
Proof. vm_compute; reflexivity. Qed.

(** ** Dictionary lemmas *)

Section DictFacts.
Context {K V : Type} (keq : K -> K -> bool).
Hypothesis keq_spec : forall x y, reflect (x = y) (keq x y).

Lemma dget_dset (d : list (K * V)) (k k' : K) (v : V) :
  dget keq (dset keq d k v) k' = if keq k k' then Some v else dget keq d k'.
Proof.
  induction d as [|[k0 v0] d IH]; simpl.
  - destruct (keq k k'); reflexivity.
  - destruct (keq_spec k0 k) as [->|Hne]; simpl.
    + destruct (keq_spec k k'); reflexivity.
    + rewrite IH; destruct (keq_spec k0 k') as [->|]; [|reflexivity].
      destruct (keq_spec k k') as [->|]; [contradiction|reflexivity].
Qed.

Lemma dset_fresh (d : list (K * V)) (k : K) (v : V) :
  ~ In k (map fst d) -> dset keq d k v = d ++ [(k, v)].
Proof.
  induction d as [|[k0 v0] d IH]; simpl; intros Hn; [reflexivity|].
  destruct (keq_spec k0 k) as [->|]; [exfalso; apply Hn; left; reflexivity|].
  rewrite IH; [reflexivity|]; intro; apply Hn; right; assumption.
Qed.

Lemma dget_fresh (d : list (K * V)) (k : K) :
  ~ In k (map fst d) -> dget keq d k = None.
Proof.
  induction d as [|[k0 v0] d IH]; simpl; intros Hn; [reflexivity|].
  destruct (keq_spec k0 k) as [->|]; [exfalso; apply Hn; left; reflexivity|].
  apply IH; intro; apply Hn; right; assumption.
Qed.

Lemma dget_last (d : list (K * V)) (k : K) (v : V) :
  ~ In k (map fst d) -> dget keq (d ++ [(k, v)]) k = Some v.
Proof.
  induction d as [|[k0 v0] d IH]; simpl; intros Hn.
  - destruct (keq_spec k k); [reflexivity|contradiction].
  - destruct (keq_spec k0 k) as [->|]; [exfalso; apply Hn; left; reflexivity|].
    apply IH; intro; apply Hn; right; assumption.
Qed.

Lemma dset_last (d : list (K * V)) (k : K) (v v' : V) :
  ~ In k (map fst d) -> dset keq (d ++ [(k, v)]) k v' = d ++ [(k, v')].
Proof.
  induction d as [|[k0 v0] d IH]; simpl; intros Hn.
  - destruct (keq_spec k k); [reflexivity|contradiction].
  - destruct (keq_spec k0 k) as [->|]; [exfalso; apply Hn; left; reflexivity|].
    rewrite IH; [reflexivity|]; intro; apply Hn; right; assumption.
Qed.

Lemma dget_in_nodup (d : list (K * V)) (k : K) (v : V) :
  NoDup (map fst d) -> In (k, v) d -> dget keq d k = Some v.
Proof.
  induction d as [|[k0 v0] d IH]; simpl; intros Hnd Hin; [contradiction|].
  inversion Hnd as [|x l Hn Hnd']; subst.
  destruct Hin as [Heq|Hin].
  - inversion Heq; subst; destruct (keq_spec k k); [reflexivity|contradiction].
  - destruct (keq_spec k0 k) as [->|]; [|apply IH; assumption].
    exfalso; apply Hn; change k with (fst (k, v)); apply in_map; assumption.
Qed.

Lemma dget_some_in (d : list (K * V)) (k : K) (v : V) :
  dget keq d k = Some v -> In (k, v) d.
Proof.
  induction d as [|[k0 v0] d IH]; simpl; intros H; [discriminate|].
  destruct (keq_spec k0 k) as [->|]; [inversion H; subst; left; reflexivity|].
  right; apply IH; assumption.
Qed.
End DictFacts.

Lemma okey_eqb_spec (x y : option Z) : reflect (x = y) (okey_eqb x y).
Proof.
  destruct x as [x|], y as [y|]; simpl; try (constructor; congruence).
  destruct (Z.eqb_spec x y); constructor; congruence.
Qed.

(** ** Reading the DIE dump *)

Lemma read_loop_skip_other (pre rest : list dline) (dies : store) (cur : option Z) :
  Forall (fun l => is_other l = true) pre ->
  read_die_chain_loop dies cur (pre ++ rest) = read_die_chain_loop dies cur rest.
Proof.
  induction 1 as [|[o ab t|a v|t] pre Ho _ IH]; simpl; try discriminate;
    [reflexivity|exact IH].
Qed.

Lemma read_loop_body (body rest : list dline) :
  forall (prev : store) (o : Z) (acc : list dline),
  ~ In (Some o) (map fst prev) ->
  Forall (fun l => is_start l = false) body ->
  read_die_chain_loop (prev ++ [(Some o, acc)]) (Some o) (body ++ rest)
  = read_die_chain_loop (prev ++ [(Some o, acc ++ attr_lines body)]) (Some o) rest.
Proof.
  induction body as [|l body IH]; intros prev o acc Hn Hs; simpl.
  - rewrite app_nil_r; reflexivity.
  - inversion Hs as [|x l' Hl Hs']; subst.
    destruct l as [off ab tag|a v|t]; simpl in Hl; try discriminate.
    + unfold attr_lines; simpl.
      unfold dd_append.
      rewrite (dget_last okey_eqb okey_eqb_spec prev (Some o) acc Hn).
      rewrite (dset_last okey_eqb okey_eqb_spec prev (Some o) acc _ Hn).
      rewrite IH by assumption.
      rewrite <- app_assoc; reflexivity.
    + apply IH; assumption.
Qed.

Lemma read_loop_groups (gs : list die_group) :
  forall (prev : store) (cur : option Z),
  Forall (fun g => Forall (fun l => is_start l = false) (g_body g)) gs ->
  Forall (fun g => g_key g <> None) gs ->
  NoDup (map fst prev ++ map g_key gs) ->
  read_die_chain_loop prev cur (concat (map render_group gs))
  = Ok (prev ++ map die_entry gs).
Proof.
  induction gs as [|g gs IH]; intros prev cur Hb Hk Hnd; simpl.
  - rewrite app_nil_r; reflexivity.
  - inversion Hb as [|x l Hbg Hb']; inversion Hk as [|x' l' Hkg Hk']; subst.
    unfold render_group; simpl.
    unfold g_key in Hkg |- *.
    destruct (py_int16 (g_off g)) as [o|] eqn:Eo; [|contradiction].
    simpl in Hnd; unfold g_key at 1 in Hnd; rewrite Eo in Hnd.
    pose proof (NoDup_remove_2 _ _ _ Hnd) as Hn2.
    assert (Hfresh : ~ In (Some o) (map fst prev))
      by (intro; apply Hn2; apply in_or_app; left; assumption).
    unfold dd_append.
    rewrite (dget_fresh okey_eqb okey_eqb_spec prev (Some o) Hfresh).
    rewrite (dset_fresh okey_eqb okey_eqb_spec prev (Some o) _ Hfresh).
    rewrite (read_loop_body (g_body g) _ prev o _ Hfresh Hbg).
    rewrite IH by (try assumption; rewrite map_app, <- app_assoc; exact Hnd).
    assert (He : die_entry g
                 = (Some o, DStart (g_off g) (g_abbrev g) (g_tag g)
                              :: attr_lines (g_body g)))
      by (unfold die_entry, g_key; rewrite Eo; reflexivity).
    rewrite He, <- app_assoc; reflexivity.
Qed.

Lemma expand_attrs_last (body : list dline) :
  forall acc, exists a, expand_attrs acc (attr_lines body) = Ok a /\
    forall k, dget String.eqb a k = last_attr_acc (dget String.eqb acc k) body k.
Proof.
  induction body as [|l body IH]; intros acc.
  - exists acc; split; reflexivity.
  - destruct l as [off ab tag|x v|t]; unfold attr_lines in *; simpl;
      try apply IH.
    destruct (IH (dset String.eqb acc x (strip v))) as (a & Ha & Hk).
    exists a; split; [exact Ha|].
    intro k; rewrite Hk, (dget_dset String.eqb String.eqb_spec); reflexivity.
Qed.

(** C2: reading a well-formed DIE dump (header lines, then DIEs whose
    bodies hold no DIE start, with valid and pairwise distinct offsets)
    gives exactly one store entry per DIE start line, in order, keyed by
    its decoded offset; expanding the entry gives back the abbreviation
    and the tag of the start line and, for every attribute name, the
    value of its last attribute line. *)
Theorem read_die_chain_one_entry_per_die (pre : list dline) (gs : list die_group) :
  Forall (fun l => is_other l = true) pre ->
  Forall (fun g => Forall (fun l => is_start l = false) (g_body g)) gs ->
  Forall (fun g => g_key g <> None) gs ->
  NoDup (map g_key gs) ->
  exists dies, read_die_chain (pre ++ concat (map render_group gs)) = Ok dies /\
    map fst dies = map g_key gs /\
    Forall (fun g => exists lines a,
      dget okey_eqb dies (g_key g) = Some lines /\
      expand_die lines = Ok (g_abbrev g, g_tag g, a) /\
      forall k, dget String.eqb a k = last_attr (g_body g) k) gs.
Proof.
  intros Hpre Hb Hk Hnd.
  exists (map die_entry gs); split; [|split].
  - unfold read_die_chain; rewrite read_loop_skip_other by assumption.
    apply (read_loop_groups gs [] None Hb Hk Hnd).
  - rewrite map_map; reflexivity.
  - apply Forall_forall; intros g Hin.
    exists (DStart (g_off g) (g_abbrev g) (g_tag g) :: attr_lines (g_body g)).
    destruct (expand_attrs_last (g_body g) []) as (a & Ha & Hka).
    exists a; split; [|split].
    + apply (dget_in_nodup okey_eqb okey_eqb_spec).
      * rewrite map_map; exact Hnd.
      * change (g_key g, DStart (g_off g) (g_abbrev g) (g_tag g)
                  :: attr_lines (g_body g)) with (die_entry g).
        apply in_map; exact Hin.
    + simpl; rewrite Ha; reflexivity.
    + exact Hka.
Qed.

Lemma read_die_chain_one_entry_per_die_witness :
  exists dies, read_die_chain main_dump = Ok dies /\
    map fst dies = map g_key main_groups /\
    Forall (fun g => exists lines a,
      dget okey_eqb dies (g_key g) = Some lines /\
      expand_die lines = Ok (g_abbrev g, g_tag g, a) /\
      forall k, dget String.eqb a k = last_attr (g_body g) k) main_groups.
Proof.
  apply (read_die_chain_one_entry_per_die
           [DOther "Contents of the .debug_info section:"%string] main_groups).
  - repeat constructor.
  - repeat constructor.
  - repeat constructor; discriminate.
  - vm_compute; repeat constructor; simpl; intuition discriminate.
Defined.

(** ** Name resolution *)

(** C4 (as the code has it): resolution follows one abstract-origin
    hop. For a DIE without [DW_AT_name] whose abstract origin refers to a
    DIE of the store, the name is that DIE's own [DW_AT_name] if it has
    one and the placeholder otherwise; the referenced DIE's own abstract
    origin is not followed. *)
Theorem nametag_single_hop (a : attrs) (off : Z) (tag : string) (dies : store)
  (o : Z) (lines : list dline) (abbrev' tag' : string) (aa : attrs) :
  dget String.eqb a "DW_AT_name"%string = None ->
  grab_hex_attr a "DW_AT_abstract_origin"%string = Ok o ->
  dget okey_eqb dies (Some o) = Some lines ->
  expand_die lines = Ok (abbrev', tag', aa) ->
  collect_die_nametag a (Some off) tag dies
  = Ok (match dget String.eqb aa "DW_AT_name"%string with
        | Some n => n
        | None => placeholder tag off
        end).
Proof.
  intros Hn Ho Hd He; unfold collect_die_nametag.
  rewrite Hn, Ho; simpl; rewrite Hd, He; simpl.
  destruct (dget String.eqb aa "DW_AT_name"%string); reflexivity.
Qed.

Lemma nametag_single_hop_witness :
  collect_die_nametag [("DW_AT_abstract_origin", "<0x20>")]%string (Some 48)
    "DW_TAG_inlined_subroutine"%string
    [(Some 16, [DStart "10" "2" "DW_TAG_subprogram"; DAttr "DW_AT_name" " main"]);
     (Some 32, [DStart "20" "3" "DW_TAG_subprogram";
                DAttr "DW_AT_abstract_origin" " <0x10>"])]%string
  = Ok "unknown@DW_TAG_inlined_subroutine@30"%string.
Proof.
  rewrite (nametag_single_hop _ 48 _ _ 32
             [DStart "20" "3" "DW_TAG_subprogram";
              DAttr "DW_AT_abstract_origin" " <0x10>"]%string
             "3"%string "DW_TAG_subprogram"%string
             [("DW_AT_abstract_origin", "<0x10>")]%string);
    vm_compute; reflexivity.
Defined.

(** C4 as stated fails: on [chain_dump] the inlined subroutine at
    [0x30] is named by the placeholder, not by ["main"] two hops away. *)
Lemma nametag_two_hops_not_followed :
  items_of chain_dump []
  = Ok [("unknown@DW_TAG_inlined_subroutine@30"%string, 4096, 4112)].
Proof. vm_compute; reflexivity. Qed.

(** C5: with an abstract origin that is not valid hex, resolution does
    not fall back to the placeholder: [grab_hex_attr] raises
    [ValueError], and so does the whole collection pass. *)
Theorem nametag_bad_origin_raises :
  collect_die_nametag [("DW_AT_abstract_origin", "<0xzz>")]%string (Some 48)
    "DW_TAG_inlined_subroutine"%string [] = Raise ValueError /\
  items_of bad_origin_dump [] = Raise ValueError.
Proof. split; vm_compute; reflexivity. Qed.

(** C7: a low pc that is not valid hex makes [grab_hex_attr] raise
    [ValueError]; the collection pass raises it instead of skipping the
    one DIE. *)
Theorem collect_bad_low_pc_raises :
  items_of bad_low_dump [] = Raise ValueError.
Proof. vm_compute; reflexivity. Qed.

(** ** Order of the interval bounds *)

Lemma dset_in {K V : Type} (keq : K -> K -> bool) (d : list (K * V)) (k k' : K) (v v' : V) :
  In (k', v') (dset keq d k v) -> In (k', v') d \/ v' = v.
Proof.
  induction d as [|[k0 v0] d IH]; simpl.
  - intros [H|[]]; inversion H; subst; right; reflexivity.
  - destruct (keq k0 k); simpl.
    + intros [H|H]; [inversion H; subst; right; reflexivity|left; right; exact H].
    + intros [H|H]; [left; left; exact H|].
      destruct (IH H) as [H'|H']; [left; right; exact H'|right; exact H'].
Qed.

Lemma range_step_ordered (rlrefs : rlrefs_t) (s : rstate) (l : rline) :
  rstate_ordered s ->
  (forall o st en, l = RSingle o st en -> st <= en) ->
  rstate_ordered (range_step rlrefs s l).
Proof.
  destruct s as [ir cr rr um]; intros [Hc Hr] Hl; unfold range_step; simpl in *.
  assert (Hsingle : rstate_ordered
    (match l with
     | RSingle off st en =>
         mkR true (if dmem Z.eqb rlrefs off then cr ++ [(st, en)] else cr) rr um
     | _ => mkR ir cr rr (um ++ [l])
     end)).
  { destruct l as [o x y|o|o st en|t]; split; simpl; try assumption.
    destruct (dmem Z.eqb rlrefs o); [|assumption].
    apply Forall_app; split; [assumption|].
    constructor; [unfold pair_ordered; simpl; apply (Hl o); reflexivity|constructor]. }
  destruct ir; simpl.
  - destruct l as [o x y|o|o st en|t]; try exact Hsingle.
    split; simpl; [constructor|].
    intros k v Hin; apply dset_in in Hin as [Hin| ->]; [apply (Hr k v Hin)|exact Hc].
  - destruct l as [o x y|o|o st en|t]; exact Hsingle.
Qed.

Lemma parse_ranges_ordered (rlrefs : rlrefs_t) (lines : list rline) :
  (forall o st en, In (RSingle o st en) lines -> st <= en) ->
  rstate_ordered (parse_ranges rlrefs lines).
Proof.
  unfold parse_ranges.
  assert (H0 : rstate_ordered rstate0) by (split; [constructor|intros k v []]).
  revert H0; generalize rstate0.
  induction lines as [|l lines IH]; intros s Hs Hl; simpl; [exact Hs|].
  apply IH.
  - apply range_step_ordered; [exact Hs|].
    intros o st en ->; apply (Hl o); left; reflexivity.
  - intros o st en Hin; apply (Hl o); right; exact Hin.
Qed.

Lemma pp_tlist_ordered (dies : store) (rngs : list (Z * Z)) (tlist : list rlref_entry) :
  forall results res,
  Forall pair_ordered rngs ->
  Forall item_ordered results ->
  pp_tlist dies rngs tlist results = Ok res ->
  Forall item_ordered res.
Proof.
  induction tlist as [|[[a dieoff] tag] tlist IH]; intros results res Hr Hres H; simpl in H.
  - inversion H; subst; exact Hres.
  - destruct (collect_die_nametag a dieoff tag dies) as [name|e]; simpl in H;
      [|discriminate].
    refine (IH _ res Hr _ H).
    apply Forall_app; split; [exact Hres|].
    apply Forall_map; refine (Forall_impl _ _ Hr).
    intros [st en]; unfold pair_ordered, item_ordered; simpl; auto.
Qed.

Lemma pp_items_ordered (dies : store) (refr : list (Z * list (Z * Z))) (rl : rlrefs_t) :
  forall results res,
  (forall k v, In (k, v) refr -> Forall pair_ordered v) ->
  Forall item_ordered results ->
  pp_items dies refr rl results = Ok res ->
  Forall item_ordered res.
Proof.
  induction rl as [|[roff tlist] rl IH]; intros results res Hr Hres H; simpl in H.
  - inversion H; subst; exact Hres.
  - destruct (dget Z.eqb refr roff) as [rngs|] eqn:E.
    + destruct (pp_tlist dies rngs tlist results) as [res'|e] eqn:Et; simpl in H;
        [|discriminate].
      apply (IH res' res Hr); [|exact H].
      apply (pp_tlist_ordered dies rngs tlist results res'); try assumption.
      apply (Hr roff); apply (dget_some_in Z.eqb Z.eqb_spec); exact E.
    + apply (IH results res Hr Hres H).
Qed.

Lemma cri_loop_ordered (dies : store) (entries : store) :
  forall results rlrefs res rl',
  (forall off lines, In (off, lines) entries -> die_pc_ordered lines) ->
  Forall item_ordered results ->
  cri_loop dies entries results rlrefs = Ok (res, rl') ->
  Forall item_ordered res.
Proof.
  induction entries as [|[off lines] entries IH];
    intros results rlrefs res rl' Hd Hres H; simpl in H.
  - inversion H; subst; exact Hres.
  - assert (Hrest : forall off' lines', In (off', lines') entries ->
                    die_pc_ordered lines')
      by (intros off' lines' Hin; apply (Hd off'); right; exact Hin).
    destruct (expand_die lines) as [[[ab tag] a]|e] eqn:Ee; simpl in H; [|discriminate].
    destruct (grab_hex_attr a "DW_AT_low_pc"%string) as [lo|e] eqn:El;
      simpl in H; [|discriminate].
    destruct (grab_hex_attr a "DW_AT_high_pc"%string) as [hi|e] eqn:Eh;
      simpl in H; [|discriminate].
    destruct (Z.eqb_spec lo (-1)) as [Hlo|Hlo]; simpl in H.
    + destruct (grab_hex_attr a "DW_AT_ranges"%string) as [rr|e]; simpl in H;
        [|discriminate].
      destruct (negb (rr =? -1)); simpl in H.
      * destruct (fmt_x off); simpl in H; [|discriminate].
        exact (IH _ _ _ _ Hrest Hres H).
      * exact (IH _ _ _ _ Hrest Hres H).
    + destruct (Z.eqb_spec hi (-1)) as [Hhi|Hhi]; simpl in H.
      * destruct (grab_hex_attr a "DW_AT_ranges"%string) as [rr|e]; simpl in H;
          [|discriminate].
        destruct (negb (rr =? -1)); simpl in H.
        -- destruct (fmt_x off); simpl in H; [|discriminate].
           exact (IH _ _ _ _ Hrest Hres H).
        -- exact (IH _ _ _ _ Hrest Hres H).
      * destruct (collect_die_nametag a off tag dies) as [name|e]; simpl in H;
          [|discriminate].
        refine (IH _ rlrefs res rl' Hrest _ H).
        apply Forall_app; split; [exact Hres|constructor; [|constructor]].
        exact (Hd off lines (or_introl eq_refl) ab tag a lo hi Ee El Eh Hlo Hhi).
Qed.

(** C6 (as the code has it): the collector copies the bounds it emits,
    [(low_pc, high_pc)] of a DIE or [(start, end)] of a range-dump
    singleton, without checking their order; every emitted interval has
    [low <= high] when every DIE with both pcs has them in order and
    every singleton of the range dump has [start <= end]. *)
Theorem collected_intervals_ordered_if_inputs_ordered
  (rlines : list rline) (dies : store) (res : list item) :
  (forall off lines, In (off, lines) dies -> die_pc_ordered lines) ->
  (forall o st en, In (RSingle o st en) rlines -> st <= en) ->
  collect_ranged_items rlines dies = Ok res ->
  Forall item_ordered res.
Proof.
  intros Hd Hr H; unfold collect_ranged_items in H.
  destruct (cri_loop dies dies [] []) as [[results rl]|e] eqn:E; simpl in H;
    [|discriminate].
  pose proof (cri_loop_ordered dies dies [] [] results rl Hd (Forall_nil _) E) as Hres.
  destruct rl as [|r rl]; [inversion H; subst; exact Hres|].
  unfold postprocess_rangerefs in H.
  refine (pp_items_ordered dies _ (r :: rl) results res _ Hres H).
  apply (parse_ranges_ordered (r :: rl) rlines Hr).
Qed.

Lemma collected_intervals_ordered_if_inputs_ordered_witness :
  collect_ranged_items (block_40 64) ranges_store
  = Ok [("main"%string, 4096, 4112); ("main"%string, 4128, 4144)] /\
  Forall item_ordered [("main"%string, 4096, 4112); ("main"%string, 4128, 4144)].
Proof.
  split; [vm_compute; reflexivity|].
  apply (collected_intervals_ordered_if_inputs_ordered (block_40 64) ranges_store).
  - intros off lines Hin ab tag a lo hi He El Eh Hlo Hhi.
    destruct Hin as [Hin|[]]; inversion Hin; subst.
    vm_compute in He; inversion He; subst.
    vm_compute in El; inversion El; subst.
    exfalso; apply Hlo; reflexivity.
  - intros o st en Hin; simpl in Hin.
    destruct Hin as [H|[H|[H|[H|[]]]]]; inversion H; subst; lia.
  - vm_compute; reflexivity.
Defined.

(** C6 as stated fails: a subprogram with [DW_AT_low_pc = 0x20] and
    [DW_AT_high_pc = 0x10] is emitted as [("f", 0x20, 0x10)]. *)
Lemma collected_interval_reversed :
  items_of reversed_dump [] = Ok [("f"%string, 32, 16)] /\ ~ (32 <= 16).
Proof. split; [vm_compute; reflexivity|lia]. Qed.

(* ================================================================== *)
(** * Further properties of the script *)

(** ** Strings *)

Lemma sapp_empty_r (x : string) : (x ++ EmptyString)%string = x.
Proof. induction x as [|c x IH]; simpl; [reflexivity|rewrite IH; reflexivity]. Qed.

Lemma no_space_app (x y : string) : no_space (x ++ y) = no_space x && no_space y.
Proof. induction x as [|c x IH]; simpl; [reflexivity|rewrite IH, andb_assoc; reflexivity]. Qed.

Lemma str_app_split (x y p u : string) :
  (x ++ y)%string = (p ++ u)%string ->
  (exists r, x = (p ++ r)%string /\ u = (r ++ y)%string) \/
  (exists r, p = (x ++ r)%string /\ y = (r ++ u)%string).
Proof.
  revert p; induction x as [|c x IH]; intros p H.
  - right; exists p; split; [reflexivity|exact H].
  - destruct p as [|d p].
    + left; exists (String c x); split; [reflexivity|symmetry; exact H].
    + simpl in H; inversion H as [[Hcd Hxy]]; subst d.
      destruct (IH p Hxy) as [(r & -> & ->)|(r & -> & ->)]; [left|right];
        exists r; split; reflexivity.
Qed.

Lemma strip_prefix_app (p s u : string) :
  strip_prefix p s = Some u -> s = (p ++ u)%string.
Proof.
  revert s; induction p as [|a p IH]; intros [|b s] H; simpl in H; try discriminate.
  - inversion H; reflexivity.
  - inversion H; reflexivity.
  - destruct (Ascii.eqb_spec a b) as [->|]; [|discriminate].
    simpl; f_equal; apply IH; exact H.
Qed.

Lemma all_space_no_dot (s : string) : all_space s = true -> has_dot s = false.
Proof.
  induction s as [|c s IH]; simpl; [reflexivity|].
  intro H; apply andb_true_iff in H as [Hc Hs]; rewrite IH by exact Hs.
  destruct (Ascii.eqb_spec c "."%char) as [->|]; [discriminate|reflexivity].
Qed.

Lemma no_space_no_newline (s : string) : no_space s = true -> has_newline s = false.
Proof.
  induction s as [|c s IH]; simpl; [reflexivity|].
  intro H; apply andb_true_iff in H as [Hc Hs]; rewrite IH by exact Hs.
  destruct (Ascii.eqb_spec c "010"%char) as [->|]; [discriminate|reflexivity].
Qed.

Lemma space_not_nl (c : ascii) : is_space c = false -> is_nl c = false.
Proof.
  unfold is_nl; intro H; destruct (Ascii.eqb_spec c "010"%char) as [->|];
    [discriminate|reflexivity].
Qed.

Lemma span_nonspace_word (x y : string) :
  no_space x = true ->
  match y with String c _ => is_space c = true | EmptyString => True end ->
  span_nonspace (x ++ y) = (x, y).
Proof.
  intros Hx Hy; induction x as [|c x IH]; simpl.
  - destruct y as [|c y]; simpl; [reflexivity|rewrite Hy; reflexivity].
  - simpl in Hx; apply andb_true_iff in Hx as [Hc Hx]; apply negb_true_iff in Hc.
    rewrite Hc, IH by exact Hx; reflexivity.
Qed.

Lemma span_space_blank (w y : string) :
  all_space w = true ->
  match y with String c _ => is_space c = false | EmptyString => True end ->
  span_space (w ++ y) = (w, y).
Proof.
  intros Hw Hy; induction w as [|c w IH]; simpl.
  - destruct y as [|c y]; simpl; [reflexivity|rewrite Hy; reflexivity].
  - simpl in Hw; apply andb_true_iff in Hw as [Hc Hw].
    rewrite Hc, IH by exact Hw; reflexivity.
Qed.

(** ** The symbol-table expressions *)

Lemma dotstar_cons {X : Type} (k : string -> option X) (c : ascii) (t : string) :
  dotstar_text k (String c t)
  = match (if is_nl c then None else dotstar_text k t) with
    | Some x => Some x
    | None =>
        match strip_prefix ".text"%string (String c t) with
        | Some u => k u
        | None => None
        end
    end.
Proof. reflexivity. Qed.

Lemma strip_prefix_cons (a b : ascii) (p s : string) :
  strip_prefix (String a p) (String b s)
  = if Ascii.eqb a b then strip_prefix p s else None.
Proof. reflexivity. Qed.

(** characters that are neither [.] nor a newline are skipped by [.*] *)
Lemma dotstar_skip {X : Type} (k : string -> option X) (x y : string) :
  has_dot x = false -> has_newline x = false ->
  dotstar_text k (x ++ y) = dotstar_text k y.
Proof.
  induction x as [|c x IH]; intros Hd Hn; [reflexivity|].
  simpl in Hd, Hn; apply orb_false_iff in Hd as [Hc Hd];
    apply orb_false_iff in Hn as [Hcn Hn].
  simpl (String c x ++ y)%string; rewrite dotstar_cons.
  unfold is_nl; rewrite Hcn, IH by assumption.
  assert (Hs : strip_prefix ".text"%string (String c (x ++ y)) = None)
    by (rewrite strip_prefix_cons, Ascii.eqb_sym, Hc; reflexivity).
  rewrite Hs; destruct (dotstar_text k y); reflexivity.
Qed.

(** a non-blank word followed by blanks (or nothing): a [.text] inside
    the word leaves a rest that starts with a non-blank, or the blanks *)
Lemma dotstar_word {X : Type} (k : string -> option X) (x y : string) :
  k EmptyString = None ->
  (forall c u, is_space c = false -> k (String c u) = None) ->
  no_space x = true -> k y = None ->
  match y with String c _ => is_space c = true | EmptyString => True end ->
  dotstar_text k (x ++ y) = dotstar_text k y.
Proof.
  intros Hk0 Hk Hx Hy Hsy; induction x as [|c x IH]; [reflexivity|].
  pose proof Hx as Hx0.
  simpl in Hx; apply andb_true_iff in Hx as [Hc Hx]; apply negb_true_iff in Hc.
  simpl (String c x ++ y)%string; rewrite dotstar_cons.
  rewrite (space_not_nl c Hc), IH by exact Hx.
  destruct (dotstar_text k y) eqn:E; [reflexivity|].
  destruct (strip_prefix ".text"%string (String c (x ++ y))) as [u|] eqn:Es;
    [|reflexivity].
  apply strip_prefix_app in Es.
  change (String c (x ++ y)) with (String c x ++ y)%string in Es.
  destruct (str_app_split (String c x) y ".text"%string u Es)
    as [(r & Hr & ->)|(r & Hr & ->)].
  - destruct r as [|d r]; [exact Hy|].
    rewrite Hr, no_space_app in Hx0; simpl in Hx0.
    destruct (is_space d) eqn:Ed; [discriminate|].
    simpl; apply Hk; exact Ed.
  - destruct r as [|d r]; [exact Hy|].
    exfalso.
    assert (Hn : no_space (String c x ++ String d r) = true)
      by (rewrite <- Hr; reflexivity).
    rewrite no_space_app in Hn; apply andb_true_iff in Hn as [_ Hn].
    simpl in Hn, Hsy; rewrite Hsy in Hn; discriminate.
Qed.

Lemma dotstar_text_at {X : Type} (k : string -> option X) (u : string) :
  dotstar_text k (".text" ++ u)%string
  = match dotstar_text k u with Some x => Some x | None => k u end.
Proof.
  simpl (".text" ++ u)%string; rewrite dotstar_cons; simpl is_nl; cbv iota beta.
  change (String "t" (String "e" (String "x" (String "t" u))))
    with ("text" ++ u)%string.
  rewrite dotstar_skip by reflexivity.
  reflexivity.
Qed.

Lemma space_word_app (w x y : string) :
  blanks w = true -> nonempty x = true -> no_space x = true ->
  match y with String c _ => is_space c = true | EmptyString => True end ->
  space_word (w ++ x ++ y) = Some (x, y).
Proof.
  unfold blanks, nonempty; intros Hw Hx Hxs Hy.
  apply andb_true_iff in Hw as [Hw _]; apply andb_true_iff in Hw as [Hw0 Hw].
  unfold space_word.
  assert (Hx1 : match (x ++ y)%string with
                | String c _ => is_space c = false | EmptyString => True end).
  { destruct x as [|c x]; [discriminate|].
    simpl in Hxs |- *; apply andb_true_iff in Hxs as [Hc _].
    apply negb_true_iff in Hc; exact Hc. }
  rewrite (span_space_blank w (x ++ y) Hw Hx1).
  apply negb_true_iff in Hw0; rewrite Hw0.
  rewrite span_nonspace_word by assumption.
  apply negb_true_iff in Hx; rewrite Hx; reflexivity.
Qed.

Lemma space_word_nonspace (c : ascii) (u : string) :
  is_space c = false -> space_word (String c u) = None.
Proof. intro H; unfold space_word; simpl; rewrite H; reflexivity. Qed.

Lemma space_word_empty : space_word EmptyString = None.
Proof. reflexivity. Qed.

Lemma blanks_start (w y : string) :
  blanks w = true -> match (w ++ y)%string with
                     | String c _ => is_space c = true
                     | EmptyString => True end.
Proof.
  unfold blanks, nonempty; destruct w as [|c w]; [discriminate|].
  simpl; intro H; apply andb_true_iff in H as [H _]; apply andb_true_iff in H as [H _].
  exact H.
Qed.

Lemma blanks_skip {X : Type} (k : string -> option X) (w y : string) :
  blanks w = true -> dotstar_text k (w ++ y) = dotstar_text k y.
Proof.
  unfold blanks; intro H; apply andb_true_iff in H as [H Hn];
    apply andb_true_iff in H as [_ Hs].
  apply dotstar_skip; [apply all_space_no_dot; exact Hs|apply negb_true_iff; exact Hn].
Qed.

(** the part of a symbol line after [.text] *)
Lemma sym_after_none {X : Type} (k : string -> option X) (r : symrec) :
  sym_wf r = true ->
  k EmptyString = None ->
  (forall c u, is_space c = false -> k (String c u) = None) ->
  k (s_sep1 r ++ s_name r)%string = None ->
  (forall v sep2, s_ver r = Some (v, sep2) -> k (sep2 ++ s_name r)%string = None) ->
  dotstar_text k (s_sep0 r ++ s_size r ++ s_sep1 r
                  ++ match s_ver r with Some (v, sep2) => v ++ sep2 | None => EmptyString end
                  ++ s_name r)%string = None.
Proof.
  destruct r as [a fl s0 sz s1 ver nm]; unfold sym_wf; simpl.
  intros Hwf Hk0 Hk H1 H2.
  assert (Hname : forall z, no_space z = true -> dotstar_text k z = None).
  { intros z Hz; rewrite <- (sapp_empty_r z) at 1.
    rewrite dotstar_word by (try assumption; exact I). reflexivity. }
  destruct ver as [[v s2]|];
    repeat match goal with
           | H : (_ && _) = true |- _ => apply andb_true_iff in H as [? ?]
           end;
    rewrite blanks_skip by assumption.
  - rewrite dotstar_skip
      by (try (apply negb_true_iff; assumption); apply no_space_no_newline; assumption).
    rewrite blanks_skip by assumption.
    rewrite <- (sapp_assoc v s2 nm).
    rewrite dotstar_word; try assumption.
    + rewrite blanks_skip by assumption; apply Hname; assumption.
    + apply (H2 v s2); reflexivity.
    + apply blanks_start; assumption.
  - simpl; rewrite dotstar_word; try assumption.
    + rewrite blanks_skip by assumption; apply Hname; assumption.
    + apply blanks_start; assumption.
Qed.

Ltac split_bools :=
  repeat match goal with
         | H : (_ && _) = true |- _ => apply andb_true_iff in H as [? ?]
         end.

Lemma space_word_last (w x : string) :
  blanks w = true -> nonempty x = true -> no_space x = true ->
  space_word (w ++ x) = Some (x, EmptyString).
Proof.
  intros Hw Hx Hxs; rewrite <- (sapp_empty_r x) at 1.
  apply space_word_app; try assumption; exact I.
Qed.

Lemma sym_tail1_word (w x : string) :
  blanks w = true -> nonempty x = true -> no_space x = true ->
  sym_tail1 (w ++ x) = None.
Proof.
  intros Hw Hx Hxs; unfold sym_tail1; rewrite space_word_last by assumption.
  reflexivity.
Qed.

Lemma sym_tail2_word (w x : string) :
  blanks w = true -> nonempty x = true -> no_space x = true ->
  sym_tail2 (w ++ x) = None.
Proof.
  intros Hw Hx Hxs; unfold sym_tail2; rewrite space_word_last by assumption.
  reflexivity.
Qed.

Lemma sym_tail1_nonspace (c : ascii) (u : string) :
  is_space c = false -> sym_tail1 (String c u) = None.
Proof. intro H; unfold sym_tail1; rewrite space_word_nonspace by exact H; reflexivity. Qed.

Lemma sym_tail2_nonspace (c : ascii) (u : string) :
  is_space c = false -> sym_tail2 (String c u) = None.
Proof. intro H; unfold sym_tail2; rewrite space_word_nonspace by exact H; reflexivity. Qed.

(** what [re.match] of a [grabaddrsize] expression gives on a symbol
    line: [tail] is tried on the text after the section name *)
Lemma sym_match_render (tail : string -> option (string * string)) (r : symrec) :
  sym_wf r = true ->
  tail EmptyString = None ->
  (forall c u, is_space c = false -> tail (String c u) = None) ->
  tail (s_sep1 r ++ s_name r)%string = None ->
  (forall v sep2, s_ver r = Some (v, sep2) -> tail (sep2 ++ s_name r)%string = None) ->
  sym_match tail (render_sym r)
  = match tail (s_sep0 r ++ s_size r ++ s_sep1 r
                ++ match s_ver r with Some (v, sep2) => v ++ sep2 | None => EmptyString end
                ++ s_name r)%string with
    | Some (g2, g3) => Some (s_addr r, g2, g3)
    | None => None
    end.
Proof.
  intros Hwf Hk0 Hk H1 H2.
  pose proof (sym_after_none tail r Hwf Hk0 Hk H1 H2) as Hafter.
  revert Hafter; destruct r as [a fl s0 sz s1 ver nm]; unfold sym_wf in Hwf; simpl in *.
  intro Hafter.
  split_bools.
  unfold render_sym, sym_match; simpl.
  rewrite span_nonspace_word by (try assumption; reflexivity).
  unfold nonempty in *; rewrite negb_true_iff in *.
  match goal with H : String.eqb a EmptyString = false |- _ => rewrite H end.
  destruct fl as [|c fl]; [discriminate|].
  simpl in *.
  repeat match goal with H : (_ || _) = false |- _ => apply orb_false_iff in H as [? ?] end.
  unfold is_nl.
  match goal with H : Ascii.eqb c "010"%char = false |- _ => rewrite H end.
  rewrite dotstar_skip by assumption.
  set (U := (s0 ++ sz ++ s1
             ++ match ver with Some (v, sep2) => v ++ sep2 | None => EmptyString end
             ++ nm)%string) in *.
  change (String "." (String "t" (String "e" (String "x" (String "t" U)))))
    with (".text" ++ U)%string.
  rewrite dotstar_text_at, Hafter; reflexivity.
Qed.

Lemma sym_tails_render (r : symrec) :
  sym_wf r = true ->
  sym_match sym_tail1 (render_sym r)
  = match s_ver r with
    | None => Some (s_addr r, s_size r, s_name r)
    | Some _ => None
    end /\
  sym_match sym_tail2 (render_sym r)
  = match s_ver r with
    | None => None
    | Some _ => Some (s_addr r, s_size r, s_name r)
    end.
Proof.
  intro Hwf; pose proof Hwf as Hwf0.
  destruct r as [a fl s0 sz s1 ver nm]; unfold sym_wf in Hwf; simpl in Hwf.
  assert (Hs : forall v s2, ver = Some (v, s2) ->
            blanks s2 = true /\ nonempty v = true /\ no_space v = true)
    by (intros v s2 ->; split_bools; repeat split; assumption).
  split_bools.
  split.
  - rewrite sym_match_render; try assumption; simpl.
    + destruct ver as [[v s2]|].
      * destruct (Hs v s2 eq_refl) as (Hb2 & Hv & Hvs).
        unfold sym_tail1.
        rewrite space_word_app; try assumption.
        2: apply blanks_start; assumption.
        rewrite <- sapp_assoc, space_word_app; try assumption.
        2: apply blanks_start; assumption.
        destruct s2 as [|c s2]; [discriminate|].
        unfold blanks in Hb2; simpl in Hb2.
        split_bools.
        unfold at_end, nl; simpl.
        match goal with H : negb (Ascii.eqb c "010"%char || _) = true |- _ =>
          apply negb_true_iff, orb_false_iff in H as [Hc _] end.
        rewrite Hc; reflexivity.
      * unfold sym_tail1.
        rewrite space_word_app; try assumption.
        2: apply blanks_start; assumption.
        rewrite space_word_last by assumption; reflexivity.
    + reflexivity.
    + intros; apply sym_tail1_nonspace; assumption.
    + apply sym_tail1_word; assumption.
    + intros v s2 E; destruct (Hs v s2 E) as (? & _ & _).
      apply sym_tail1_word; assumption.
  - rewrite sym_match_render; try assumption; simpl.
    + destruct ver as [[v s2]|].
      * destruct (Hs v s2 eq_refl) as (Hb2 & Hv & Hvs).
        unfold sym_tail2.
        rewrite space_word_app; try assumption.
        2: apply blanks_start; assumption.
        rewrite <- sapp_assoc, space_word_app; try assumption.
        2: apply blanks_start; assumption.
        rewrite space_word_last by assumption; reflexivity.
      * unfold sym_tail2.
        rewrite space_word_app; try assumption.
        2: apply blanks_start; assumption.
        rewrite space_word_last by assumption; reflexivity.
    + reflexivity.
    + intros; apply sym_tail2_nonspace; assumption.
    + apply sym_tail2_word; assumption.
    + intros v s2 E; destruct (Hs v s2 E) as (? & _ & _).
      apply sym_tail2_word; assumption.
Qed.

Lemma sym_addr_truthy (r : symrec) : sym_wf r = true -> truthy (Some (s_addr r)) = true.
Proof.
  destruct r as [a fl s0 sz s1 ver nm]; unfold sym_wf; simpl; intro H; split_bools.
  destruct a; [discriminate|reflexivity].
Qed.


(** ** Symbol lookup *)

Lemma grabaddrsize_render (r : symrec) :
  sym_wf r = true ->
  (forall f addr, f <> EmptyString ->
     grabaddrsize (render_sym r) (Some f) addr
     = Ok (if String.eqb (s_name r) f
           then (Some (s_addr r), Some (reported_size r)) else (None, None))) /\
  (forall sa sz x, py_int16 (s_addr r) = Some sa -> py_int16 (s_size r) = Some sz ->
     grabaddrsize (render_sym r) None (Some x)
     = Ok (if (sa <=? x) && (x <=? sa + sz)
           then (Some (s_addr r), Some (reported_size r)) else (None, None))).
Proof.
  intro Hwf; destruct (sym_tails_render r Hwf) as [H1 H2].
  pose proof (sym_addr_truthy r Hwf) as Ha; simpl in Ha.
  unfold grabaddrsize, symtab_regexes, reported_size; split.
  - intros f addr Hf.
    destruct f as [|c0 f]; [contradiction|].
    destruct (s_ver r); simpl; rewrite H1, H2; simpl;
      destruct (String.eqb (s_name r) (String c0 f)); simpl; try reflexivity;
      rewrite Ha; simpl; destruct (String.eqb (s_size r) "00000000"); reflexivity.
  - intros sa sz x Hsa Hsz.
    assert (Hin : inhexrange (s_addr r) (s_size r) (Some x)
                  = Ok ((sa <=? x) && (x <=? sa + sz)))
      by (unfold inhexrange, int16; rewrite Hsa, Hsz; reflexivity).
    destruct (s_ver r); simpl; rewrite H1, H2; simpl; rewrite Hin; simpl;
      destruct ((sa <=? x) && (x <=? sa + sz)); simpl; try reflexivity;
      rewrite Ha; simpl; destruct (String.eqb (s_size r) "00000000"); reflexivity.
Qed.
(** X1: [grabaddrsize] reads the address and the size of a [.text] line of
    [objdump -t] (address, flags, [.text], size, name) or of [objdump -T]
    (with a version word before the name). Looking up a function, it
    returns them when the name is the function's and nothing otherwise;
    looking up an address, it returns them when the address lies in
    [[start, start + size]], both ends included. A size [00000000] is
    reported as [4]. *)
Theorem grabaddrsize_symbol_line (r : symrec) :
  sym_wf r = true ->
  (forall f addr, f <> EmptyString ->
     grabaddrsize (render_sym r) (Some f) addr
     = Ok (if String.eqb (s_name r) f
           then (Some (s_addr r), Some (reported_size r)) else (None, None))) /\
  (forall sa sz x, py_int16 (s_addr r) = Some sa -> py_int16 (s_size r) = Some sz ->
     grabaddrsize (render_sym r) None (Some x)
     = Ok (if (sa <=? x) && (x <=? sa + sz)
           then (Some (s_addr r), Some (reported_size r)) else (None, None))).
Proof. exact (grabaddrsize_render r). Qed.

Lemma grabaddrsize_symbol_line_witness :
  grabaddrsize (render_sym (dline_sym "0000000000001139" "00000000" "main"))
    (Some "main"%string) None
  = Ok (Some "0000000000001139"%string, Some "4"%string).
Proof.
  destruct (grabaddrsize_symbol_line (dline_sym "0000000000001139" "00000000" "main")
              eq_refl) as [Hf _].
  rewrite (Hf "main"%string None) by discriminate; reflexivity.
Defined.







(** ** [dodwarf]: selecting the compile unit *)

Lemma annotate_line_nil (line : string) :
  has_newline line = false -> annotate_line [] line = (line ++ nl)%string.
Proof.
  intros Hn; unfold annotate_line.
  destruct (asm_match line) as [[[sp a] g]|] eqn:Hm; [|reflexivity].
  destruct (py_int16 a) as [d|]; [|reflexivity].
  rewrite <- (asm_match_no_newline line sp a g Hn Hm).
  simpl suffixes; rewrite sapp_empty_l, !sapp_assoc; reflexivity.
Qed.

Lemma annotate_nil (asmlines : list string) :
  Forall (fun l => has_newline l = false) asmlines ->
  annotate [] asmlines = String.concat EmptyString (map (fun l => (l ++ nl)%string) asmlines).
Proof.
  unfold annotate; intros H; f_equal.
  induction H as [|l ls Hl _ IH]; simpl; [reflexivity|].
  rewrite annotate_line_nil by exact Hl; rewrite IH; reflexivity.
Qed.

Lemma cu_scan_app (flag : string) (es1 es2 : store) :
  forall cu, cu_scan flag (es1 ++ es2) cu = (c <- cu_scan flag es1 cu ;; cu_scan flag es2 c).
Proof.
  induction es1 as [|[off lines] es1 IH]; intro cu; simpl; [reflexivity|].
  destruct (expand_die lines) as [[[ab tag] a]|e]; simpl; [|reflexivity].
  destruct (negb (String.eqb tag "DW_TAG_compile_unit"%string)); [apply IH|].
  destruct (dget String.eqb a "DW_AT_name"%string) as [n|]; [|apply IH].
  destruct (String.eqb n flag); [|apply IH].
  destruct (fmt_d off); simpl; [apply IH|reflexivity].
Qed.

Lemma cu_scan_nomatch (flag : string) (es : store) (cu : option string) :
  Forall (fun e => exists ab tag a, expand_die (snd e) = Ok (ab, tag, a) /\
            ~ (tag = "DW_TAG_compile_unit"%string /\
               dget String.eqb a "DW_AT_name"%string = Some flag)) es ->
  cu_scan flag es cu = Ok cu.
Proof.
  induction 1 as [|[off lines] es (ab & tag & a & He & Hn) _ IH]; simpl in *;
    [reflexivity|].
  rewrite He; simpl.
  destruct (String.eqb_spec tag "DW_TAG_compile_unit"%string); simpl; [|exact IH].
  destruct (dget String.eqb a "DW_AT_name"%string) as [n|] eqn:Ed; [|exact IH].
  destruct (String.eqb_spec n flag); [|exact IH].
  subst; exfalso; apply Hn; split; reflexivity.
Qed.

Lemma cu_scan_expands (flag : string) (es : store) :
  Forall (fun e => exists o ab tag a,
            fst e = Some o /\ expand_die (snd e) = Ok (ab, tag, a)) es ->
  forall cu, exists c, cu_scan flag es cu = Ok c.
Proof.
  induction 1 as [|[off lines] es (o & ab & tag & a & Ho & He) _ IH]; intro cu;
    simpl in *; [eexists; reflexivity|].
  subst off; rewrite He; simpl.
  destruct (negb (String.eqb tag "DW_TAG_compile_unit"%string)); [apply IH|].
  destruct (dget String.eqb a "DW_AT_name"%string) as [n|]; [|apply IH].
  destruct (String.eqb n flag); [apply IH|apply IH].
Qed.

Lemma cu_scan_hit (flag : string) (o : Z) (lines : list dline) (ab : string) (a : attrs)
  (cu : option string) :
  expand_die lines = Ok (ab, "DW_TAG_compile_unit"%string, a) ->
  dget String.eqb a "DW_AT_name"%string = Some flag ->
  cu_scan flag [(Some o, lines)] cu = Ok (Some ("--dwarf-start=" ++ py_dec o)%string).
Proof.
  intros He Hn; simpl; rewrite He; simpl; rewrite Hn, String.eqb_refl; reflexivity.
Qed.

(** X4: with the compile-unit option ["."] the DWARF info is not searched:
    whatever the dumps hold, [dodwarf] writes each disassembly line
    unchanged, followed by a newline (once the first dump has been read
    without error). *)
Theorem dodwarf_dot_passthrough (flag_dumpdwarf : bool) (lines1 : list dline)
  (dump_cu : string -> list dline) (rlines : list rline) (asmlines : list string) :
  Forall (fun l => has_newline l = false) asmlines ->
  dodwarf "."%string flag_dumpdwarf lines1 dump_cu rlines asmlines
  = (_ <- read_die_chain lines1 ;;
     Ok (String.concat EmptyString (map (fun l => (l ++ nl)%string) asmlines))).
Proof.
  intros Hn; unfold dodwarf.
  destruct (read_die_chain lines1) as [dies|e]; simpl; [|reflexivity].
  rewrite annotate_nil by exact Hn; reflexivity.
Qed.

Lemma dodwarf_dot_passthrough_witness :
  dodwarf "."%string true cu_dump cu_dumps [] asm_sample
  = Ok ("  1000: push rbp" ++ nl ++ "  1001: mov rbp,rsp" ++ nl ++ "  1020: ret" ++ nl)%string.
Proof.
  rewrite dodwarf_dot_passthrough by (repeat constructor).
  vm_compute; reflexivity.
Defined.

(** X5: when no DIE of the first dump is a compile unit whose
    [DW_AT_name] is the requested name (and every DIE expands), the unit
    is not found: [dodwarf] only warns and writes the disassembly lines
    unchanged; the per-unit dump and the range dump are not read. *)
Theorem dodwarf_unknown_cu_passthrough (flag : string) (flag_dumpdwarf : bool)
  (lines1 : list dline) (dies : store) (dump_cu : string -> list dline)
  (rlines : list rline) (asmlines : list string) :
  flag <> "."%string ->
  read_die_chain lines1 = Ok dies ->
  Forall (fun e => exists ab tag a, expand_die (snd e) = Ok (ab, tag, a) /\
            ~ (tag = "DW_TAG_compile_unit"%string /\
               dget String.eqb a "DW_AT_name"%string = Some flag)) dies ->
  Forall (fun l => has_newline l = false) asmlines ->
  dodwarf flag flag_dumpdwarf lines1 dump_cu rlines asmlines
  = Ok (String.concat EmptyString (map (fun l => (l ++ nl)%string) asmlines)).
Proof.
  intros Hf Hr Hd Hn; unfold dodwarf; rewrite Hr; simpl.
  destruct (String.eqb_spec flag "."%string); [contradiction|].
  rewrite (cu_scan_nomatch flag dies None Hd); simpl.
  rewrite annotate_nil by exact Hn; reflexivity.
Qed.

Lemma dodwarf_unknown_cu_passthrough_witness :
  dodwarf "v.c"%string true cu_dump cu_dumps [] asm_sample
  = Ok ("  1000: push rbp" ++ nl ++ "  1001: mov rbp,rsp" ++ nl ++ "  1020: ret" ++ nl)%string.
Proof.
  rewrite (dodwarf_unknown_cu_passthrough "v.c"%string true cu_dump
             [(Some 11, [DStart "b" "1" "DW_TAG_compile_unit"; DAttr "DW_AT_name" " t.c"]);
              (Some 42, [DStart "2a" "1" "DW_TAG_compile_unit"; DAttr "DW_AT_name" " t.c"]);
              (Some 80, [DStart "50" "1" "DW_TAG_compile_unit"; DAttr "DW_AT_name" " u.c"])]%string);
    [vm_compute; reflexivity|discriminate|vm_compute; reflexivity| |repeat constructor].
  repeat (apply Forall_cons;
          [do 3 eexists; split; [vm_compute; reflexivity|intros [_ Hc]; vm_compute in Hc; discriminate]|]).
  apply Forall_nil.
Defined.

(** X6: when several compile units carry the requested name, the last
    one in the first dump is chosen: the per-unit dump is read with the
    option [--dwarf-start=] followed by its offset in decimal, and its
    ranged items annotate the disassembly. *)
Theorem dodwarf_last_named_cu (flag : string) (lines1 : list dline)
  (pre post : store) (o : Z) (lines : list dline) (ab : string) (a : attrs)
  (dump_cu : string -> list dline) (rlines : list rline) (asmlines : list string) :
  flag <> "."%string ->
  read_die_chain lines1 = Ok (pre ++ (Some o, lines) :: post) ->
  Forall (fun e => exists o ab tag a,
            fst e = Some o /\ expand_die (snd e) = Ok (ab, tag, a)) pre ->
  expand_die lines = Ok (ab, "DW_TAG_compile_unit"%string, a) ->
  dget String.eqb a "DW_AT_name"%string = Some flag ->
  Forall (fun e => exists ab tag a, expand_die (snd e) = Ok (ab, tag, a) /\
            ~ (tag = "DW_TAG_compile_unit"%string /\
               dget String.eqb a "DW_AT_name"%string = Some flag)) post ->
  dodwarf flag false lines1 dump_cu rlines asmlines
  = (dies2 <- read_die_chain (dump_cu ("--dwarf-start=" ++ py_dec o)%string) ;;
     items <- collect_ranged_items rlines dies2 ;;
     Ok (annotate items asmlines)).
Proof.
  intros Hf Hr Hpre He Hn Hpost; unfold dodwarf; rewrite Hr; simpl.
  destruct (String.eqb_spec flag "."%string); [contradiction|].
  change ((Some o, lines) :: post) with ([(Some o, lines)] ++ post).
  rewrite !cu_scan_app.
  destruct (cu_scan_expands flag pre Hpre None) as [c Hc]; rewrite Hc; cbn [bind].
  rewrite cu_scan_app, (cu_scan_hit flag o lines ab a c He Hn); cbn [bind].
  rewrite (cu_scan_nomatch flag post _ Hpost); simpl.
  destruct (read_die_chain (dump_cu _)) as [dies2|e]; simpl; [|reflexivity].
  destruct (collect_ranged_items rlines dies2); reflexivity.
Qed.

Lemma dodwarf_last_named_cu_witness :
  dodwarf "t.c"%string false cu_dump cu_dumps [] asm_sample
  = Ok ("  1000: push rbp //  begin main" ++ nl ++ "  1001: mov rbp,rsp" ++ nl
        ++ "  1020: ret //  end main" ++ nl)%string.
Proof.
  rewrite (dodwarf_last_named_cu "t.c"%string cu_dump
             [(Some 11, [DStart "b" "1" "DW_TAG_compile_unit"; DAttr "DW_AT_name" " t.c"])]
             [(Some 80, [DStart "50" "1" "DW_TAG_compile_unit"; DAttr "DW_AT_name" " u.c"])]
             42 [DStart "2a" "1" "DW_TAG_compile_unit"; DAttr "DW_AT_name" " t.c"]
             "1" [("DW_AT_name", "t.c")])%string;
    [vm_compute; reflexivity|discriminate|vm_compute; reflexivity| | |vm_compute; reflexivity|].
  - repeat constructor; do 4 eexists; split; [reflexivity|vm_compute; reflexivity].
  - vm_compute; reflexivity.
  - repeat constructor; do 3 eexists; split;
      [vm_compute; reflexivity|intros [_ Hc]; vm_compute in Hc; discriminate].
Defined.

(** ** [dodwarf]: the DIE dump option and stray attribute lines *)

Lemma dset_forall_store (R : option Z * list dline -> Prop) (d : store)
  (k : option Z) (v : list dline) :
  Forall R d -> R (k, v) -> Forall R (dset okey_eqb d k v).
Proof.
  induction 1 as [|[k0 v0] d H0 Hd IH]; intros Hk; simpl.
  - constructor; [exact Hk|constructor].
  - destruct (okey_eqb_spec k0 k) as [->|]; constructor; auto.
Qed.

Lemma dd_append_heads (d : store) (k : option Z) (x : dline) :
  Forall (fun e => exists h t, snd e = h :: t /\ (fst e = None -> is_attr h = true)) d ->
  (k = None -> is_attr x = true) ->
  Forall (fun e => exists h t, snd e = h :: t /\ (fst e = None -> is_attr h = true))
    (dd_append okey_eqb d k x).
Proof.
  intros Hd Hx; unfold dd_append.
  destruct (dget okey_eqb d k) as [l|] eqn:E; apply dset_forall_store; try assumption.
  - apply (dget_some_in okey_eqb okey_eqb_spec) in E.
    rewrite Forall_forall in Hd; destruct (Hd _ E) as (h & t & Hl & Hn); simpl in *.
    exists h, (t ++ [x]); split; [subst; reflexivity|exact Hn].
  - exists x, []; split; [reflexivity|exact Hx].
Qed.

Lemma read_loop_heads (lines : list dline) :
  forall dies cur d,
  Forall (fun e => exists h t, snd e = h :: t /\ (fst e = None -> is_attr h = true)) dies ->
  read_die_chain_loop dies cur lines = Ok d ->
  Forall (fun e => exists h t, snd e = h :: t /\ (fst e = None -> is_attr h = true)) d.
Proof.
  induction lines as [|l lines IH]; intros dies cur d Hd H; simpl in H.
  - inversion H; subst; exact Hd.
  - destruct l as [off ab tag|x v|t].
    + destruct (py_int16 off) as [z|]; [|discriminate].
      refine (IH _ _ _ _ H); apply dd_append_heads; [exact Hd|discriminate].
    + refine (IH _ _ _ _ H); apply dd_append_heads; [exact Hd|reflexivity].
    + exact (IH _ _ _ Hd H).
Qed.

Lemma cri_loop_expands (dies : store) (entries : store) :
  forall results rlrefs r,
  cri_loop dies entries results rlrefs = Ok r ->
  Forall (fun e => exists ab tag a, expand_die (snd e) = Ok (ab, tag, a)) entries.
Proof.
  induction entries as [|[off lines] entries IH]; intros results rlrefs r H; simpl in H;
    [constructor|].
  destruct (expand_die lines) as [[[ab tag] a]|e] eqn:Ee; simpl in H; [|discriminate].
  constructor; [exists ab, tag, a; exact Ee|].
  destruct (grab_hex_attr a "DW_AT_low_pc"%string) as [lo|e]; simpl in H; [|discriminate].
  destruct (grab_hex_attr a "DW_AT_high_pc"%string) as [hi|e]; simpl in H; [|discriminate].
  destruct (negb (lo =? -1) && negb (hi =? -1)).
  - destruct (collect_die_nametag a off tag dies) as [name|e]; simpl in H;
      [exact (IH _ _ _ H)|discriminate].
  - destruct (grab_hex_attr a "DW_AT_ranges"%string) as [rr|e]; simpl in H; [|discriminate].
    destruct (negb (rr =? -1)); [|exact (IH _ _ _ H)].
    destruct (fmt_x off); simpl in H; [exact (IH _ _ _ H)|discriminate].
Qed.

Lemma collect_expands (rlines : list rline) (dies : store) (res : list item) :
  collect_ranged_items rlines dies = Ok res ->
  Forall (fun e => exists ab tag a, expand_die (snd e) = Ok (ab, tag, a)) dies.
Proof.
  unfold collect_ranged_items; intros H.
  destruct (cri_loop dies dies [] []) as [r|e] eqn:E; simpl in H; [|discriminate].
  exact (cri_loop_expands dies dies [] [] r E).
Qed.

Lemma store_no_none (dies : store) :
  Forall (fun e => exists h t, snd e = h :: t /\ (fst e = None -> is_attr h = true)) dies ->
  Forall (fun e => exists ab tag a, expand_die (snd e) = Ok (ab, tag, a)) dies ->
  existsb is_none (map fst dies) = false.
Proof.
  induction 1 as [|[[k|] ls] dies (h & t & Hl & Hn) _ IH]; intros He; simpl in *;
    [reflexivity| |].
  - inversion He; subst; apply IH; assumption.
  - exfalso; inversion He as [|x l (ab & tag & a & Hx) _]; subst; simpl in Hx.
    specialize (Hn eq_refl).
    destruct h as [o ab' tg|x v|tx]; simpl in Hn; try discriminate; discriminate Hx.
Qed.

Lemma insert_key_in (x y : Z) (l : list Z) : In y (insert_key x l) -> y = x \/ In y l.
Proof.
  induction l as [|z l IH]; simpl; [intros [H|[]]; left; auto|].
  destruct (x <=? z); simpl.
  - intros [H|H]; [left; auto|right; exact H].
  - intros [H|H]; [right; left; exact H|].
    destruct (IH H) as [H'|H']; [left; exact H'|right; right; exact H'].
Qed.

Lemma sorted_keys_in (l : list Z) (y : Z) : In y (fold_right insert_key [] l) -> In y l.
Proof.
  induction l as [|x l IH]; simpl; [auto|].
  intros H; destruct (insert_key_in x y _ H) as [->|H']; [left; reflexivity|].
  right; apply IH; exact H'.
Qed.

Lemma some_keys_in (ks : list (option Z)) (x : Z) : In x (some_keys ks) -> In (Some x) ks.
Proof.
  induction ks as [|[k|] ks IH]; simpl; [auto| |].
  - intros [->|H]; [left; reflexivity|right; apply IH; exact H].
  - intros H; right; apply IH; exact H.
Qed.

Lemma dget_present_store (d : store) (k : option Z) :
  In k (map fst d) -> exists v, dget okey_eqb d k = Some v.
Proof.
  induction d as [|[k0 v0] d IH]; simpl; [contradiction|].
  destruct (okey_eqb_spec k0 k) as [->|Hne]; [eexists; reflexivity|].
  intros [H|H]; [contradiction|apply IH; exact H].
Qed.

Lemma dump_pass_ok (dies : store) (keys : list (option Z)) :
  Forall (fun k => exists ls ab tag a,
            dget okey_eqb dies k = Some ls /\ expand_die ls = Ok (ab, tag, a)) keys ->
  dump_pass dies keys = Ok tt.
Proof.
  induction 1 as [|k keys (ls & ab & tag & a & Hg & He) _ IH]; simpl; [reflexivity|].
  rewrite Hg, He; simpl; exact IH.
Qed.

(** X7: the option that dumps every DIE of the selected unit ([-D]) does
    not change what [dodwarf] writes: when the run without it succeeds,
    the run with it succeeds with the same output. [sorted(dies)] cannot
    meet a [None] key then, since that entry holds attribute lines only
    and collecting the items would have exited on it. *)
Theorem dodwarf_dumpdwarf_same_output (flag : string) (lines1 : list dline)
  (dump_cu : string -> list dline) (rlines : list rline) (asmlines : list string)
  (out : string) :
  dodwarf flag false lines1 dump_cu rlines asmlines = Ok out ->
  dodwarf flag true lines1 dump_cu rlines asmlines = Ok out.
Proof.
  unfold dodwarf; intros H.
  destruct (read_die_chain lines1) as [dies|e]; simpl in *; [|discriminate].
  destruct (if String.eqb flag "."%string then Ok None else cu_scan flag dies None)
    as [[cu|]|e]; simpl in *; [|exact H|discriminate].
  destruct (read_die_chain (dump_cu cu)) as [dies2|e] eqn:E2; simpl in *; [|discriminate].
  destruct (collect_ranged_items rlines dies2) as [items|e] eqn:Ec; simpl in H; [|discriminate].
  pose proof (collect_expands rlines dies2 items Ec) as Hx.
  assert (Hh : Forall (fun e => exists h t, snd e = h :: t /\
                        (fst e = None -> is_attr h = true)) dies2)
    by exact (read_loop_heads _ [] None dies2 (Forall_nil _) E2).
  unfold py_sorted_keys; rewrite (store_no_none dies2 Hh Hx); simpl.
  rewrite dump_pass_ok; [simpl; exact H|].
  apply Forall_forall; intros k Hk; apply in_map_iff in Hk as (x & <- & Hk).
  apply sorted_keys_in, some_keys_in in Hk.
  destruct (dget_present_store dies2 (Some x) Hk) as [ls Hg].
  pose proof (dget_some_in okey_eqb okey_eqb_spec _ _ _ Hg) as Hin.
  rewrite Forall_forall in Hx; destruct (Hx _ Hin) as (ab & tag & a & He).
  exists ls, ab, tag, a; split; [exact Hg|exact He].
Qed.

Lemma dodwarf_dumpdwarf_same_output_witness :
  dodwarf "t.c"%string false cu_dump cu_dumps [] asm_sample
  = Ok ("  1000: push rbp //  begin main" ++ nl ++ "  1001: mov rbp,rsp" ++ nl
        ++ "  1020: ret //  end main" ++ nl)%string /\
  dodwarf "t.c"%string true cu_dump cu_dumps [] asm_sample
  = Ok ("  1000: push rbp //  begin main" ++ nl ++ "  1001: mov rbp,rsp" ++ nl
        ++ "  1020: ret //  end main" ++ nl)%string.
Proof.
  assert (H : dodwarf "t.c"%string false cu_dump cu_dumps [] asm_sample
              = Ok ("  1000: push rbp //  begin main" ++ nl ++ "  1001: mov rbp,rsp" ++ nl
                    ++ "  1020: ret //  end main" ++ nl)%string)
    by (vm_compute; reflexivity).
  split; [exact H|exact (dodwarf_dumpdwarf_same_output _ _ _ _ _ _ H)].
Defined.

Lemma dd_append_head (k k0 : option Z) (h x : dline) (l : list dline) (t : store) :
  exists l1 t1, dd_append okey_eqb ((k, h :: l) :: t) k0 x = (k, h :: l1) :: t1.
Proof.
  unfold dd_append; simpl.
  destruct k as [z|], k0 as [z0|]; simpl; try destruct (z =? z0);
    try destruct (dget okey_eqb t _); simpl; eexists; eexists; reflexivity.
Qed.

Lemma read_loop_head_kept (lines : list dline) :
  forall k h l t cur d,
  read_die_chain_loop ((k, h :: l) :: t) cur lines = Ok d ->
  exists l' t', d = (k, h :: l') :: t'.
Proof.
  induction lines as [|ln lines IH]; intros k h l t cur d H; simpl in H.
  - inversion H; subst; exists l, t; reflexivity.
  - destruct ln as [off ab tag|x v|tx].
    + destruct (py_int16 off) as [z|]; [|discriminate].
      destruct (dd_append_head k (Some z) h (DStart off ab tag) l t) as (l1 & t1 & E).
      rewrite E in H; exact (IH _ _ _ _ _ _ H).
    + destruct (dd_append_head k cur h (DAttr x v) l t) as (l1 & t1 & E).
      rewrite E in H; exact (IH _ _ _ _ _ _ H).
    + exact (IH _ _ _ _ _ _ H).
Qed.

Lemma read_chain_stray (pre rest : list dline) (a v : string) (dies : store) :
  Forall (fun l => is_other l = true) pre ->
  read_die_chain (pre ++ DAttr a v :: rest) = Ok dies ->
  exists l t, dies = (None, DAttr a v :: l) :: t.
Proof.
  unfold read_die_chain; intros Hp H.
  rewrite read_loop_skip_other in H by exact Hp; simpl in H.
  exact (read_loop_head_kept rest None (DAttr a v) [] [] None dies H).
Qed.

(** X8: an attribute line before the first DIE start of a dump is stored
    under the key [None], first in the store; the collector expands it
    first and exits ([u.error]) instead of skipping it. *)
Theorem collect_stray_attribute_exits (pre rest : list dline) (a v : string)
  (dies : store) (rlines : list rline) :
  Forall (fun l => is_other l = true) pre ->
  read_die_chain (pre ++ DAttr a v :: rest) = Ok dies ->
  collect_ranged_items rlines dies = Raise SystemExit.
Proof.
  intros Hp H; destruct (read_chain_stray pre rest a v dies Hp H) as (l & t & ->).
  reflexivity.
Qed.

Lemma collect_stray_attribute_exits_witness :
  read_die_chain (DOther "Contents of the .debug_info section:"
                  :: DAttr "DW_AT_producer" " GNU C" :: main_dump)%string
  = Ok [(None, [DAttr "DW_AT_producer" " GNU C"]);
        (Some 11, [DStart "b" "1" "DW_TAG_compile_unit"; DAttr "DW_AT_name" " t.c"]);
        (Some 16, [DStart "10" "2" "DW_TAG_subprogram"; DAttr "DW_AT_name" " main";
                   DAttr "DW_AT_low_pc" " 0x1000"; DAttr "DW_AT_high_pc" " 0x1020"])]%string /\
  collect_ranged_items []
    [(None, [DAttr "DW_AT_producer" " GNU C"]);
     (Some 11, [DStart "b" "1" "DW_TAG_compile_unit"; DAttr "DW_AT_name" " t.c"]);
     (Some 16, [DStart "10" "2" "DW_TAG_subprogram"; DAttr "DW_AT_name" " main";
                DAttr "DW_AT_low_pc" " 0x1000"; DAttr "DW_AT_high_pc" " 0x1020"])]%string
  = Raise SystemExit.
Proof.
  split; [vm_compute; reflexivity|].
  apply (collect_stray_attribute_exits [DOther "Contents of the .debug_info section:"]
           main_dump "DW_AT_producer" " GNU C")%string;
    [repeat constructor|vm_compute; reflexivity].
Defined.

(** X9: the same stray attribute line in the first dump makes the search
    for the compile unit exit ([u.error] in [expand_die]) whenever a unit
    name other than ["."] is requested. *)
Theorem dodwarf_stray_attribute_exits (flag : string) (flag_dumpdwarf : bool)
  (pre rest : list dline) (a v : string) (dies : store)
  (dump_cu : string -> list dline) (rlines : list rline) (asmlines : list string) :
  flag <> "."%string ->
  Forall (fun l => is_other l = true) pre ->
  read_die_chain (pre ++ DAttr a v :: rest) = Ok dies ->
  dodwarf flag flag_dumpdwarf (pre ++ DAttr a v :: rest) dump_cu rlines asmlines
  = Raise SystemExit.
Proof.
  intros Hf Hp H; unfold dodwarf; rewrite H; simpl.
  destruct (String.eqb_spec flag "."%string); [contradiction|].
  destruct (read_chain_stray pre rest a v dies Hp H) as (l & t & ->).
  reflexivity.
Qed.

Lemma dodwarf_stray_attribute_exits_witness :
  dodwarf "t.c"%string false
    (DOther "Contents of the .debug_info section:"
     :: DAttr "DW_AT_producer" " GNU C" :: cu_dump)%string
    cu_dumps [] asm_sample = Raise SystemExit.
Proof.
  apply (dodwarf_stray_attribute_exits "t.c" false
           [DOther "Contents of the .debug_info section:"] cu_dump
           "DW_AT_producer" " GNU C"
           [(None, [DAttr "DW_AT_producer" " GNU C"]);
            (Some 11, [DStart "b" "1" "DW_TAG_compile_unit"; DAttr "DW_AT_name" " t.c"]);
            (Some 42, [DStart "2a" "1" "DW_TAG_compile_unit"; DAttr "DW_AT_name" " t.c"]);
            (Some 80, [DStart "50" "1" "DW_TAG_compile_unit"; DAttr "DW_AT_name" " u.c"])])%string;
    [discriminate|repeat constructor|vm_compute; reflexivity].
Defined.

(** ** Symbol lookup: absent functions and addresses *)







(** ** The range-list parser: sequences of blocks *)

Lemma range_step_keeps_refranges (rlrefs : rlrefs_t) (s : rstate) (l : rline) :
  is_rend l = false -> refranges (range_step rlrefs s l) = refranges s.
Proof.
  destruct s as [ir cr rr um]; unfold range_step; simpl.
  destruct ir, l; simpl; try reflexivity; discriminate.
Qed.

Lemma fold_keeps_refranges (rlrefs : rlrefs_t) (tail : list rline) :
  Forall (fun l => is_rend l = false) tail ->
  forall s, refranges (fold_left (range_step rlrefs) tail s) = refranges s.
Proof.
  induction 1 as [|l tail Hl _ IH]; intros s; simpl; [reflexivity|].
  rewrite IH; apply range_step_keeps_refranges; exact Hl.
Qed.

(** X12: the parser commits a range list only on an end-of-list line:
    lines after the last end-of-list line (singletons of a list that is
    not terminated, base addresses) add nothing to the committed lists. *)
Theorem range_tail_not_committed (rlrefs : rlrefs_t) (ls tail : list rline) :
  Forall (fun l => is_rend l = false) tail ->
  refranges (parse_ranges rlrefs (ls ++ tail)) = refranges (parse_ranges rlrefs ls).
Proof.
  intros Ht; unfold parse_ranges; rewrite fold_left_app.
  apply fold_keeps_refranges; exact Ht.
Qed.

Lemma range_tail_not_committed_witness :
  refranges (parse_ranges rlrefs_40 (block_40 64 ++ [RBase 64 (2 ^ 64 - 1) 0; RSingle 64 8192 8208]))
  = [(64, [(4096, 4112); (4128, 4144)])].
Proof.
  rewrite range_tail_not_committed by (repeat constructor).
  vm_compute; reflexivity.
Defined.

Lemma range_block_step (rlrefs : rlrefs_t) (b : rblock) (s : rstate) :
  inrange s = false -> crange s = [] ->
  rview (fold_left (range_step rlrefs) (render_block b) s)
  = (false, [], dset Z.eqb (refranges s) (b_end b) (kept rlrefs (b_singles b))).
Proof.
  destruct s as [ir cr rr um]; simpl; intros -> ->.
  destruct b as [[[o x] y] ss e]; unfold render_block; simpl.
  rewrite fold_left_app, singles_in_open_block by reflexivity; simpl.
  reflexivity.
Qed.

Lemma range_blocks_fold (rlrefs : rlrefs_t) (bs : list rblock) :
  forall s, inrange s = false -> crange s = [] ->
  rview (fold_left (range_step rlrefs) (concat (map render_block bs)) s)
  = (false, [], fold_left (fun rr b => dset Z.eqb rr (b_end b) (kept rlrefs (b_singles b)))
                  bs (refranges s)).
Proof.
  induction bs as [|b bs IH]; intros s Hi Hc; simpl.
  - destruct s; simpl in *; subst; reflexivity.
  - rewrite fold_left_app.
    pose proof (range_block_step rlrefs b s Hi Hc) as Hb.
    destruct (fold_left (range_step rlrefs) (render_block b) s) as [ir cr rr um] eqn:E.
    unfold rview in Hb; simpl in Hb; inversion Hb; subst.
    apply (IH (mkR false [] _ um)); reflexivity.
Qed.

(** X13: a range dump made of complete blocks (a base-address line,
    singletons, an end-of-list line) leaves no block open and commits each
    block, in order, under the offset of its end-of-list line, keeping the
    pairs of the singletons whose offset is a queued reference; a later
    block ending under the same offset replaces the earlier list. *)
Theorem range_blocks_committed (rlrefs : rlrefs_t) (bs : list rblock) :
  rview (parse_ranges rlrefs (concat (map render_block bs)))
  = (false, [], blocks_committed rlrefs bs).
Proof.
  unfold parse_ranges, blocks_committed.
  exact (range_blocks_fold rlrefs bs rstate0 eq_refl eq_refl).
Qed.

Lemma rview_step (rlrefs : rlrefs_t) (s s' : rstate) (l : rline) :
  rview s = rview s' -> rview (range_step rlrefs s l) = rview (range_step rlrefs s' l).
Proof.
  destruct s as [ir cr rr um], s' as [ir' cr' rr' um']; unfold rview; simpl.
  intros H; inversion H; subst; unfold range_step; simpl.
  destruct ir', l; reflexivity.
Qed.

Lemma rview_other (rlrefs : rlrefs_t) (s : rstate) (t : string) :
  rview (range_step rlrefs s (ROther t)) = rview s.
Proof. destruct s as [[] cr rr um]; reflexivity. Qed.

Lemma rview_filter_other (rlrefs : rlrefs_t) (ls : list rline) :
  forall s s', rview s = rview s' ->
  rview (fold_left (range_step rlrefs) (filter (fun l => negb (is_rother l)) ls) s)
  = rview (fold_left (range_step rlrefs) ls s').
Proof.
  induction ls as [|l ls IH]; intros s s' H; simpl; [exact H|].
  destruct l as [o a b|o|o st en|t]; simpl; apply IH;
    try (apply rview_step; exact H).
  rewrite rview_other; exact H.
Qed.

(** X14: lines of the range dump that match none of the three expressions
    (headers, blank lines) only go to the list of unmatched lines: with
    them removed, the parser ends with the same open flag, the same open
    list and the same committed lists. *)
Theorem range_other_lines_ignored (rlrefs : rlrefs_t) (ls : list rline) :
  rview (parse_ranges rlrefs (filter (fun l => negb (is_rother l)) ls))
  = rview (parse_ranges rlrefs ls).
Proof. apply rview_filter_other; reflexivity. Qed.

(** ** Where the collected intervals come from *)

Lemma range_step_all (P : Z -> Z -> Prop) (rlrefs : rlrefs_t) (s : rstate) (l : rline) :
  rstate_all P s ->
  (forall o st en, l = RSingle o st en -> P st en) ->
  rstate_all P (range_step rlrefs s l).
Proof.
  destruct s as [ir cr rr um]; intros [Hc Hr] Hl; unfold range_step; simpl in *.
  assert (Hsingle : rstate_all P
    (match l with
     | RSingle off st en =>
         mkR true (if dmem Z.eqb rlrefs off then cr ++ [(st, en)] else cr) rr um
     | _ => mkR ir cr rr (um ++ [l])
     end)).
  { destruct l as [o x y|o|o st en|t]; split; simpl; try assumption.
    destruct (dmem Z.eqb rlrefs o); [|assumption].
    apply Forall_app; split; [assumption|].
    constructor; [simpl; apply (Hl o); reflexivity|constructor]. }
  destruct ir; simpl.
  - destruct l as [o x y|o|o st en|t]; try exact Hsingle.
    split; simpl; [constructor|].
    intros k v Hin; apply dset_in in Hin as [Hin| ->]; [apply (Hr k v Hin)|exact Hc].
  - destruct l as [o x y|o|o st en|t]; exact Hsingle.
Qed.

Lemma parse_ranges_all (P : Z -> Z -> Prop) (rlrefs : rlrefs_t) (lines : list rline) :
  (forall o st en, In (RSingle o st en) lines -> P st en) ->
  rstate_all P (parse_ranges rlrefs lines).
Proof.
  unfold parse_ranges.
  assert (H0 : rstate_all P rstate0) by (split; [constructor|intros k v []]).
  revert H0; generalize rstate0.
  induction lines as [|l lines IH]; intros s Hs Hl; simpl; [exact Hs|].
  apply IH.
  - apply range_step_all; [exact Hs|].
    intros o st en ->; apply (Hl o); left; reflexivity.
  - intros o st en Hin; apply (Hl o); right; exact Hin.
Qed.

Lemma pp_tlist_all (P : Z -> Z -> Prop) (dies : store) (rngs : list (Z * Z))
  (tlist : list rlref_entry) :
  forall results res,
  Forall (fun p => P (fst p) (snd p)) rngs ->
  Forall (fun it : item => let '(_, lo, hi) := it in P lo hi) results ->
  pp_tlist dies rngs tlist results = Ok res ->
  Forall (fun it : item => let '(_, lo, hi) := it in P lo hi) res.
Proof.
  induction tlist as [|[[a dieoff] tag] tlist IH]; intros results res Hr Hres H; simpl in H.
  - inversion H; subst; exact Hres.
  - destruct (collect_die_nametag a dieoff tag dies) as [name|e]; simpl in H;
      [|discriminate].
    refine (IH _ res Hr _ H).
    apply Forall_app; split; [exact Hres|].
    apply Forall_map; refine (Forall_impl _ _ Hr).
    intros [st en]; simpl; auto.
Qed.

Lemma pp_items_all (P : Z -> Z -> Prop) (dies : store) (refr : list (Z * list (Z * Z)))
  (rl : rlrefs_t) :
  forall results res,
  (forall k v, In (k, v) refr -> Forall (fun p => P (fst p) (snd p)) v) ->
  Forall (fun it : item => let '(_, lo, hi) := it in P lo hi) results ->
  pp_items dies refr rl results = Ok res ->
  Forall (fun it : item => let '(_, lo, hi) := it in P lo hi) res.
Proof.
  induction rl as [|[roff tlist] rl IH]; intros results res Hr Hres H; simpl in H.
  - inversion H; subst; exact Hres.
  - destruct (dget Z.eqb refr roff) as [rngs|] eqn:E.
    + destruct (pp_tlist dies rngs tlist results) as [res'|e] eqn:Et; simpl in H;
        [|discriminate].
      apply (IH res' res Hr); [|exact H].
      apply (pp_tlist_all P dies rngs tlist results res'); try assumption.
      apply (Hr roff); apply (dget_some_in Z.eqb Z.eqb_spec); exact E.
    + apply (IH results res Hr Hres H).
Qed.

Lemma cri_loop_all (P : Z -> Z -> Prop) (dies : store) (entries : store) :
  forall results rlrefs res rl',
  (forall off lines ab tag a lo hi,
     In (off, lines) entries -> expand_die lines = Ok (ab, tag, a) ->
     grab_hex_attr a "DW_AT_low_pc"%string = Ok lo ->
     grab_hex_attr a "DW_AT_high_pc"%string = Ok hi -> lo <> -1 -> hi <> -1 -> P lo hi) ->
  Forall (fun it : item => let '(_, lo, hi) := it in P lo hi) results ->
  cri_loop dies entries results rlrefs = Ok (res, rl') ->
  Forall (fun it : item => let '(_, lo, hi) := it in P lo hi) res.
Proof.
  induction entries as [|[off lines] entries IH];
    intros results rlrefs res rl' Hd Hres H; simpl in H.
  - inversion H; subst; exact Hres.
  - assert (Hrest : forall off' lines' ab tag a lo hi,
              In (off', lines') entries -> expand_die lines' = Ok (ab, tag, a) ->
              grab_hex_attr a "DW_AT_low_pc"%string = Ok lo ->
              grab_hex_attr a "DW_AT_high_pc"%string = Ok hi -> lo <> -1 -> hi <> -1 ->
              P lo hi)
      by (intros off' lines' ab tag a lo hi Hin; apply (Hd off'); right; exact Hin).
    destruct (expand_die lines) as [[[ab tag] a]|e] eqn:Ee; simpl in H; [|discriminate].
    destruct (grab_hex_attr a "DW_AT_low_pc"%string) as [lo|e] eqn:El;
      simpl in H; [|discriminate].
    destruct (grab_hex_attr a "DW_AT_high_pc"%string) as [hi|e] eqn:Eh;
      simpl in H; [|discriminate].
    destruct (Z.eqb_spec lo (-1)) as [Hlo|Hlo]; simpl in H.
    + destruct (grab_hex_attr a "DW_AT_ranges"%string) as [rr|e]; simpl in H;
        [|discriminate].
      destruct (negb (rr =? -1)); simpl in H.
      * destruct (fmt_x off); simpl in H; [|discriminate].
        exact (IH _ _ _ _ Hrest Hres H).
      * exact (IH _ _ _ _ Hrest Hres H).
    + destruct (Z.eqb_spec hi (-1)) as [Hhi|Hhi]; simpl in H.
      * destruct (grab_hex_attr a "DW_AT_ranges"%string) as [rr|e]; simpl in H;
          [|discriminate].
        destruct (negb (rr =? -1)); simpl in H.
        -- destruct (fmt_x off); simpl in H; [|discriminate].
           exact (IH _ _ _ _ Hrest Hres H).
        -- exact (IH _ _ _ _ Hrest Hres H).
      * destruct (collect_die_nametag a off tag dies) as [name|e]; simpl in H;
          [|discriminate].
        refine (IH _ rlrefs res rl' Hrest _ H).
        apply Forall_app; split; [exact Hres|constructor; [|constructor]].
        exact (Hd off lines ab tag a lo hi (or_introl eq_refl) Ee El Eh Hlo Hhi).
Qed.

(** X15: every interval [(name, lo, hi)] the collector emits has the
    decoded [DW_AT_low_pc] and [DW_AT_high_pc] of a DIE of the store as
    its bounds, or the start and end fields of a singleton line of the
    range dump, as printed: no base address is added to a range-list
    entry and no bounds are combined. *)
Theorem collected_bounds_provenance (rlines : list rline) (dies : store) (res : list item) :
  collect_ranged_items rlines dies = Ok res ->
  Forall (fun it : item => let '(_, lo, hi) := it in
            pcs_of_die dies lo hi \/ exists o, In (RSingle o lo hi) rlines) res.
Proof.
  intros H; unfold collect_ranged_items in H.
  set (P := fun lo hi => pcs_of_die dies lo hi \/ exists o, In (RSingle o lo hi) rlines).
  destruct (cri_loop dies dies [] []) as [[results rl]|e] eqn:E; simpl in H;
    [|discriminate].
  assert (Hres : Forall (fun it : item => let '(_, lo, hi) := it in P lo hi) results).
  { refine (cri_loop_all P dies dies [] [] results rl _ (Forall_nil _) E).
    intros off lines ab tag a lo hi Hin He El Eh Hlo Hhi; left.
    exists off, lines, ab, tag, a; repeat split; assumption. }
  destruct rl as [|r rl]; [inversion H; subst; exact Hres|].
  unfold postprocess_rangerefs in H.
  refine (pp_items_all P dies _ (r :: rl) results res _ Hres H).
  apply (parse_ranges_all P (r :: rl) rlines).
  intros o st en Hin; right; exists o; exact Hin.
Qed.

Lemma collected_bounds_provenance_witness :
  collect_ranged_items (block_40 64) ranges_store
  = Ok [("main"%string, 4096, 4112); ("main"%string, 4128, 4144)] /\
  Forall (fun it : item => let '(_, lo, hi) := it in
            pcs_of_die ranges_store lo hi \/ exists o, In (RSingle o lo hi) (block_40 64))
    [("main"%string, 4096, 4112); ("main"%string, 4128, 4144)].
Proof.
  assert (H : collect_ranged_items (block_40 64) ranges_store
              = Ok [("main"%string, 4096, 4112); ("main"%string, 4128, 4144)])
    by (vm_compute; reflexivity).
  split; [exact H|exact (collected_bounds_provenance _ _ _ H)].
Defined.

Lemma pp_items_no_refranges (dies : store) (rl : rlrefs_t) (results : list item) :
  pp_items dies [] rl results = Ok results.
Proof. induction rl as [|[roff tlist] rl IH]; simpl; [reflexivity|exact IH]. Qed.

(** X16: a non-empty range dump without any end-of-list line commits no
    range list, so DIEs that refer to a range list give no interval: the
    collector returns only the intervals of DIEs with both pcs. (On an
    empty dump the script's message for a missing list would format a
    variable that the parsing loop never set.) *)
Theorem collect_no_end_marker (rlines : list rline) (dies : store) :
  rlines <> [] ->
  Forall (fun l => is_rend l = false) rlines ->
  collect_ranged_items rlines dies = (p <- cri_loop dies dies [] [] ;; Ok (fst p)).
Proof.
  intros _ Hr; unfold collect_ranged_items.
  destruct (cri_loop dies dies [] []) as [[results rl]|e]; simpl; [|reflexivity].
  destruct rl as [|r rl]; [reflexivity|].
  unfold postprocess_rangerefs, parse_ranges.
  rewrite (fold_keeps_refranges (r :: rl) rlines Hr rstate0).
  apply pp_items_no_refranges.
Qed.

Lemma collect_no_end_marker_witness :
  collect_ranged_items [RBase 64 (2 ^ 64 - 1) 4194304; RSingle 64 4096 4112] ranges_store
  = Ok [].
Proof.
  rewrite collect_no_end_marker by (try discriminate; repeat constructor).
  vm_compute; reflexivity.
Defined.
